(** * DynoHook: calling-convention bookkeeping and the vtable hook

    A shallow embedding of
      - [src/dynohook/convention.hpp]  ([Align], [GetDataTypeSize],
        [ICallingConvention::init], the save/restore buffers), and
      - [src/virtuals/vhook.cpp]       ([VHook::hook], [VHook::unhook]),
    followed by the properties of these functions.

    Unsigned C++ integers ([size_t], [uint16_t], [uintptr_t]) are modelled
    as [N] with the wrap-around of their width written out.  Memory is a
    byte store indexed by address.  Operations whose C++ behaviour is
    undefined (division by zero, [back()] on an empty vector, a copy that
    leaves its buffer) or that stop at an [assert] return a [Fault]. *)

From Stdlib Require Import NArith ZArith Lia.
From Stdlib.Strings Require Import Byte.
From stdpp Require Import base option list.

Local Open Scope N_scope.

(** ** Faults and the result monad *)

Inductive fault : Type :=
| DivisionByZero
| EmptyStack
| OutOfBounds
| AssertionFailed.

Inductive result (A : Type) : Type :=
| Ok (a : A)
| Fault (f : fault).

Arguments Ok {A} a.
Arguments Fault {A} f.

#[global] Instance result_ret : MRet result := fun A a => Ok a.

#[global] Instance result_bind : MBind result := fun A B k r =>
  match r with
  | Ok a => k a
  | Fault f => Fault f
  end.

Definition is_Ok {A} (r : result A) : Prop := exists a, r = Ok a.

(** ** Byte-addressed memory *)

Module Memory.

Definition Mem : Type := N -> byte.

(** [n] bytes starting at address [p]. *)
Definition load_bytes (m : Mem) (p : N) (n : nat) : list byte :=
  (fun i : nat => m (p + N.of_nat i)) <$> seq 0 n.

(** Memory after the bytes [bs] have been written at address [p]. *)
Definition store_bytes (m : Mem) (p : N) (bs : list byte) : Mem :=
  fun a =>
    if p <=? a then
      match bs !! N.to_nat (a - p) with
      | Some b => b
      | None => m a
      end
    else m a.

(** [std::make_unique<uint8_t[]>(n)]: a fresh value-initialised buffer. *)
Definition make_buffer (n : N) : list byte := replicate (N.to_nat n) x00.

(** [memcpy(buf + off, src, |data|)] into a heap buffer; leaving the buffer
    is undefined behaviour. *)
Definition buffer_write (buf : list byte) (off : N) (data : list byte)
  : result (list byte) :=
  let o := N.to_nat off in
  if decide (o + length data <= length buf)%nat
  then Ok (take o buf ++ data ++ drop (o + length data) buf)
  else Fault OutOfBounds.

(** [memcpy(dst, buf + off, n)] out of a heap buffer: the [n] bytes read. *)
Definition buffer_read (buf : list byte) (off : N) (n : N)
  : result (list byte) :=
  let o := N.to_nat off in
  if decide (o + N.to_nat n <= length buf)%nat
  then Ok (take (N.to_nat n) (drop o buf))
  else Fault OutOfBounds.

(** Two address ranges [p, p+n) and [q, q+k) do not intersect. *)
Definition disjoint_ranges (p n q k : N) : Prop :=
  p + n <= q \/ q + k <= p.

End Memory.

Import Memory.

(** ** convention.hpp *)

Module Convention.

Inductive DataType : Type :=
| Void | Bool | Char | UChar | Short | UShort | Int | UInt
| Long | ULong | LongLong | ULongLong | Float | Double
| Pointer | String | M128 | M256 | M512 | Object.

#[global] Instance DataType_eq_dec : EqDecision DataType.
Proof. solve_decision. Defined.

(** Modelled from the spec: [registers.hpp] (the [RegisterType] enumeration)
    is not part of the sources at hand.  The convention code only compares a
    register with [NONE]; every other enumerator is a register of the
    snapshot, kept by its number. *)
Inductive RegisterType : Type :=
| NONE
| REG (id : N).

#[global] Instance RegisterType_eq_dec : EqDecision RegisterType.
Proof. solve_decision. Defined.

Record DataObject : Type := mkDataObject {
  type : DataType;
  reg : RegisterType;
  size : N                      (* uint16_t *)
}.

Definition isFlt (d : DataObject) : bool :=
  bool_decide (type d = Float) || bool_decide (type d = Double).

Definition isHva (d : DataObject) : bool :=
  bool_decide (type d = M128) || bool_decide (type d = M256)
  || bool_decide (type d = M512).

(** The data models of the supported platforms: they fix [sizeof(long)],
    the size of a pointer and the width of [size_t]. *)
Inductive DataModel : Type :=
| ILP32      (* x86, 32 bit *)
| LLP64      (* x86-64, Microsoft *)
| LP64.      (* x86-64, System V *)

Definition size_t_bits (dm : DataModel) : N :=
  match dm with ILP32 => 32 | LLP64 | LP64 => 64 end.

Definition sizeof_long (dm : DataModel) : N :=
  match dm with ILP32 | LLP64 => 4 | LP64 => 8 end.

Definition sizeof_pointer (dm : DataModel) : N :=
  match dm with ILP32 => 4 | LLP64 | LP64 => 8 end.

Definition sizeof_bool : N := 1.
Definition sizeof_char : N := 1.
Definition sizeof_short : N := 2.
Definition sizeof_int : N := 4.
Definition sizeof_long_long : N := 8.
Definition sizeof_float : N := 4.
Definition sizeof_double : N := 8.

(** Truncation to [size_t] and to [uint16_t]. *)
Definition wrap_size_t (dm : DataModel) (x : N) : N := x mod 2 ^ size_t_bits dm.
Definition wrap_u16 (x : N) : N := x mod 2 ^ 16.

(** [Align(size, alignment)]; [size % 0] is undefined. *)
Definition Align (dm : DataModel) (size alignment : N) : result N :=
  if alignment =? 0 then Fault DivisionByZero else
  let unaligned := size mod alignment in
  if unaligned =? 0 then Ok size
  else Ok (wrap_size_t dm (size + (alignment - unaligned))).

(** [GetDataTypeSize(type, alignment)].  [Object] falls in the [default]
    branch, which prints a message and returns 0. *)
Definition GetDataTypeSize (dm : DataModel) (ty : DataType) (alignment : N)
  : result N :=
  match ty with
  | Void => Ok 0
  | Bool => Align dm sizeof_bool alignment
  | Char => Align dm sizeof_char alignment
  | UChar => Align dm sizeof_char alignment
  | Short => Align dm sizeof_short alignment
  | UShort => Align dm sizeof_short alignment
  | Int => Align dm sizeof_int alignment
  | UInt => Align dm sizeof_int alignment
  | Long => Align dm (sizeof_long dm) alignment
  | ULong => Align dm (sizeof_long dm) alignment
  | LongLong => Align dm sizeof_long_long alignment
  | ULongLong => Align dm sizeof_long_long alignment
  | Float => Align dm sizeof_float alignment
  | Double => Align dm sizeof_double alignment
  | Pointer => Align dm (sizeof_pointer dm) alignment
  | String => Align dm (sizeof_pointer dm) alignment
  | M128 => Align dm (wrap_size_t dm (sizeof_float * 4)) alignment
  | M256 => Align dm (wrap_size_t dm (sizeof_float * 8)) alignment
  | M512 => Align dm (wrap_size_t dm (sizeof_float * 16)) alignment
  | Object => Ok 0
  end.

Record ICallingConvention : Type := mkConvention {
  m_arguments : list DataObject;
  m_return : DataObject;
  m_alignment : N;
  m_stackSize : N;
  m_registerSize : N;
  m_savedReturnBuffers : list (list byte);
  m_savedCallArguments : list (list byte)
}.

Definition getArgStackSize (c : ICallingConvention) : N := m_stackSize c.
Definition getArgRegisterSize (c : ICallingConvention) : N := m_registerSize c.

(** [if (!size) size = GetDataTypeSize(type, m_alignment);] with the
    narrowing of the [size_t] result to the [uint16_t] field. *)
Definition fill_size (dm : DataModel) (alignment : N) (d : DataObject)
  : result DataObject :=
  if size d =? 0 then
    s ← GetDataTypeSize dm (type d) alignment;
    Ok (mkDataObject (type d) (reg d) (wrap_u16 s))
  else Ok d.

(** The loop of [init] over [m_arguments], threading the two counters. *)
Fixpoint init_arguments (dm : DataModel) (alignment : N)
    (args : list DataObject) (stackSize registerSize : N)
  : result (list DataObject * N * N) :=
  match args with
  | [] => Ok ([], stackSize, registerSize)
  | d :: rest =>
      d' ← fill_size dm alignment d;
      let stackSize' :=
        if decide (reg d' = NONE) then wrap_size_t dm (stackSize + size d')
        else stackSize in
      let registerSize' :=
        if decide (reg d' = NONE) then registerSize
        else wrap_size_t dm (registerSize + size d') in
      '(rest', s, r) ← init_arguments dm alignment rest stackSize' registerSize';
      Ok (d' :: rest', s, r)
  end.

Definition init (dm : DataModel) (c : ICallingConvention)
  : result ICallingConvention :=
  '(args, s, r) ← init_arguments dm (m_alignment c) (m_arguments c) 0 0;
  ret ← fill_size dm (m_alignment c) (m_return c);
  Ok (mkConvention args ret (m_alignment c) s r
        (m_savedReturnBuffers c) (m_savedCallArguments c)).

Definition set_savedReturnBuffers (c : ICallingConvention)
    (bufs : list (list byte)) : ICallingConvention :=
  mkConvention (m_arguments c) (m_return c) (m_alignment c) (m_stackSize c)
    (m_registerSize c) bufs (m_savedCallArguments c).

Definition set_savedCallArguments (c : ICallingConvention)
    (bufs : list (list byte)) : ICallingConvention :=
  mkConvention (m_arguments c) (m_return c) (m_alignment c) (m_stackSize c)
    (m_registerSize c) (m_savedReturnBuffers c) bufs.

(** The pure virtual methods of [ICallingConvention] that the save and
    restore code calls: an ABI says where argument [i] and the return value
    live, given the register snapshot. *)
Class ConventionABI : Type := {
  Registers : Type;
  getArgumentPtr : nat -> Registers -> N;
  getReturnPtr : Registers -> N
}.

Section SaveRestore.

Context {abi : ConventionABI}.
Variable dm : DataModel.

(** The base class bodies of the two notification methods are empty. *)
Definition onArgumentPtrChanged (index : nat) (registers : Registers)
    (argumentPtr : N) (m : Mem) : Mem := m.

Definition onReturnPtrChanged (registers : Registers)
    (returnPtr : list byte) (m : Mem) : Mem := m.

Definition saveReturnValue (registers : Registers) (c : ICallingConvention)
    (m : Mem) : result ICallingConvention :=
  let n := size (m_return c) in
  savedReturnValue ←
    buffer_write (make_buffer n) 0
      (load_bytes m (getReturnPtr registers) (N.to_nat n));
  Ok (set_savedReturnBuffers c (m_savedReturnBuffers c ++ [savedReturnValue])).

Definition restoreReturnValue (registers : Registers)
    (c : ICallingConvention) (m : Mem) : result (ICallingConvention * Mem) :=
  match last (m_savedReturnBuffers c) with
  | None => Fault EmptyStack
  | Some savedReturnValue =>
      bytes ← buffer_read savedReturnValue 0 (size (m_return c));
      let m1 := store_bytes m (getReturnPtr registers) bytes in
      let m2 := onReturnPtrChanged registers savedReturnValue m1 in
      Ok (set_savedReturnBuffers c (removelast (m_savedReturnBuffers c)), m2)
  end.

(** The loop of [saveCallArguments]: argument [i] is copied to [offset]. *)
Fixpoint save_arguments_loop (registers : Registers) (m : Mem)
    (args : list DataObject) (i : nat) (offset : N) (buf : list byte)
  : result (list byte) :=
  match args with
  | [] => Ok buf
  | d :: rest =>
      buf' ← buffer_write buf offset
               (load_bytes m (getArgumentPtr i registers) (N.to_nat (size d)));
      save_arguments_loop registers m rest (S i)
        (wrap_size_t dm (offset + size d)) buf'
  end.

Definition saveCallArguments (registers : Registers) (c : ICallingConvention)
    (m : Mem) : result ICallingConvention :=
  let argTotalSize :=
    wrap_size_t dm (getArgStackSize c + getArgRegisterSize c) in
  savedCallArguments ←
    save_arguments_loop registers m (m_arguments c) 0 0
      (make_buffer argTotalSize);
  Ok (set_savedCallArguments c (m_savedCallArguments c ++ [savedCallArguments])).

(** The loop of [restoreCallArguments]. *)
Fixpoint restore_arguments_loop (registers : Registers) (saved : list byte)
    (args : list DataObject) (i : nat) (offset : N) (m : Mem) : result Mem :=
  match args with
  | [] => Ok m
  | d :: rest =>
      bytes ← buffer_read saved offset (size d);
      restore_arguments_loop registers saved rest (S i)
        (wrap_size_t dm (offset + size d))
        (store_bytes m (getArgumentPtr i registers) bytes)
  end.

Definition restoreCallArguments (registers : Registers)
    (c : ICallingConvention) (m : Mem) : result (ICallingConvention * Mem) :=
  match last (m_savedCallArguments c) with
  | None => Fault EmptyStack
  | Some savedCallArguments =>
      m' ← restore_arguments_loop registers savedCallArguments
             (m_arguments c) 0 0 m;
      Ok (set_savedCallArguments c (removelast (m_savedCallArguments c)), m')
  end.

(** A run of the hook dispatcher as far as the return buffers go: it saves,
    restores, and in between the original function and the callbacks write
    to memory. *)
Inductive return_op : Type :=
| OpSave (registers : Registers)
| OpRestore (registers : Registers)
| OpWrite (p : N) (bs : list byte).

Fixpoint run_return_ops (ops : list return_op) (c : ICallingConvention)
    (m : Mem) : result (ICallingConvention * Mem) :=
  match ops with
  | [] => Ok (c, m)
  | OpSave registers :: rest =>
      c' ← saveReturnValue registers c m;
      run_return_ops rest c' m
  | OpRestore registers :: rest =>
      '(c', m') ← restoreReturnValue registers c m;
      run_return_ops rest c' m'
  | OpWrite p bs :: rest =>
      run_return_ops rest c (store_bytes m p bs)
  end.

(** Every [OpRestore] is preceded by a save that has not been restored yet,
    [depth] saves being outstanding at the start. *)
Fixpoint well_nested (depth : nat) (ops : list return_op) : bool :=
  match ops with
  | [] => true
  | OpSave _ :: rest => well_nested (S depth) rest
  | OpRestore _ :: rest =>
      match depth with
      | O => false
      | S d => well_nested d rest
      end
  | OpWrite _ _ :: rest => well_nested depth rest
  end.

(** The buffer [saveReturnValue] pushes. *)
Definition return_image (registers : Registers) (c : ICallingConvention)
    (m : Mem) : list byte :=
  load_bytes m (getReturnPtr registers) (N.to_nat (size (m_return c))).

(** The buffer [saveCallArguments] fills: the bytes of the arguments from
    the [i]-th on, one after the other. *)
Fixpoint arguments_image (registers : Registers) (m : Mem)
    (args : list DataObject) (i : nat) : list byte :=
  match args with
  | [] => []
  | d :: rest =>
      load_bytes m (getArgumentPtr i registers) (N.to_nat (size d))
      ++ arguments_image registers m rest (S i)
  end.

(** The range [q, q+n) meets the location of none of the arguments [args],
    numbered from [i]. *)
Fixpoint range_clear_of (registers : Registers) (q n : N)
    (args : list DataObject) (i : nat) : Prop :=
  match args with
  | [] => True
  | d :: rest =>
      disjoint_ranges (getArgumentPtr i registers) (size d) q n
      /\ range_clear_of registers q n rest (S i)
  end.

(** No two arguments share a byte of their locations. *)
Fixpoint arguments_disjoint (registers : Registers)
    (args : list DataObject) (i : nat) : Prop :=
  match args with
  | [] => True
  | d :: rest =>
      range_clear_of registers (getArgumentPtr i registers) (size d) rest (S i)
      /\ arguments_disjoint registers rest (S i)
  end.

End SaveRestore.

(** Buffers on the stack have the size of the return slot. *)
Definition buffers_sized (c : ICallingConvention) : Prop :=
  Forall (fun b : list byte => length b = N.to_nat (size (m_return c)))
    (m_savedReturnBuffers c).

(** *** The quantities the properties are stated with *)

(** The unaligned size of a type, as the [sizeof] expressions of
    [GetDataTypeSize] give it; [Void] and [Object] carry none. *)
Definition raw_size (dm : DataModel) (ty : DataType) : N :=
  match ty with
  | Void | Object => 0
  | Bool => sizeof_bool
  | Char | UChar => sizeof_char
  | Short | UShort => sizeof_short
  | Int | UInt => sizeof_int
  | Long | ULong => sizeof_long dm
  | LongLong | ULongLong => sizeof_long_long
  | Float => sizeof_float
  | Double => sizeof_double
  | Pointer | String => sizeof_pointer dm
  | M128 => 16
  | M256 => 32
  | M512 => 64
  end.

(** Alignment as the specification words it: [ceil(s / a) * a]. *)
Definition ceil_div (s a : N) : N := (s + a - 1) / a.
Definition AlignSpec (s a : N) : N := ceil_div s a * a.

(** What [init] does to one descriptor: [d] before, [d'] after. A size given
    at construction is kept; a zero size is inferred from the type. *)
Definition descriptor_filled (dm : DataModel) (alignment : N)
    (d d' : DataObject) : Prop :=
  type d' = type d /\ reg d' = reg d
  /\ (size d <> 0 -> size d' = size d)
  /\ (size d = 0 ->
        size d' = AlignSpec (raw_size dm (type d)) alignment
        /\ (0 < size d' <-> type d <> Void /\ type d <> Object)).

(** Sum of the sizes of the stack resident, and of the register resident,
    arguments. *)
Fixpoint stack_bytes (args : list DataObject) : N :=
  match args with
  | [] => 0
  | d :: rest =>
      (if decide (reg d = NONE) then size d else 0) + stack_bytes rest
  end.

Fixpoint register_bytes (args : list DataObject) : N :=
  match args with
  | [] => 0
  | d :: rest =>
      (if decide (reg d = NONE) then 0 else size d) + register_bytes rest
  end.

(** Sum of the sizes of all arguments; [arg_offset args i] is the sum over
    the arguments before the [i]-th. *)
Fixpoint total_bytes (args : list DataObject) : N :=
  match args with
  | [] => 0
  | d :: rest => size d + total_bytes rest
  end.

Definition arg_offset (args : list DataObject) (i : nat) : N :=
  total_bytes (take i args).

(** The [size d] bytes of a buffer that belong to the [i]-th argument. *)
Definition arg_segment (args : list DataObject) (i : nat) (d : DataObject)
    (buf : list byte) : list byte :=
  take (N.to_nat (size d)) (drop (N.to_nat (arg_offset args i)) buf).

End Convention.

Import Convention.

(** ** vhook.cpp *)

Module VTableHook.

(** Modelled from the spec: [dynohook/nat_hook.h] (the base class [NatHook]
    with [createBridge] and the bridge it owns) is not part of the sources at
    hand.  Bridge creation is taken as a parameter: it may fail, it updates
    the bridge state of the hook, and it may write to memory (the executable
    region it allocates). [getBridge] is the entry address of the bridge. *)
Class NatHook : Type := {
  Bridge : Type;
  createBridge : Bridge -> Mem -> bool * Bridge * Mem;
  getBridge : Bridge -> N
}.

Section VHook.

Context {base : NatHook}.

(** [m_fnAddress] is the field of [VHook]; [m_hooked] and the bridge are
    inherited. *)
Record VHook : Type := mkVHook {
  m_bridge : Bridge;
  m_hooked : bool;
  m_fnAddress : N
}.

Definition getAddress (h : VHook) : N := m_fnAddress h.

(** [ndebug] says whether the [assert]s are compiled out; a failing [assert]
    stops the program. *)
Definition hook (ndebug : bool) (h : VHook) (m : Mem)
  : result (bool * VHook * Mem) :=
  if negb ndebug && m_hooked h then Fault AssertionFailed
  else if m_hooked h then Ok (false, h, m)
  else
    let '(created, b, m') := createBridge (m_bridge h) m in
    if negb created then Ok (false, mkVHook b (m_hooked h) (m_fnAddress h), m')
    else Ok (true, mkVHook b true (m_fnAddress h), m').

Definition unhook (ndebug : bool) (h : VHook) (m : Mem)
  : result (bool * VHook * Mem) :=
  if negb ndebug && negb (m_hooked h) then Fault AssertionFailed
  else if negb (m_hooked h) then Ok (false, h, m)
  else Ok (true, mkVHook (m_bridge h) false (m_fnAddress h), m).

(** The destructor: [if (m_hooked) unhook();]. *)
Definition destroy (ndebug : bool) (h : VHook) (m : Mem)
  : result (VHook * Mem) :=
  if m_hooked h then
    '(_, h', m') ← unhook ndebug h m;
    Ok (h', m')
  else Ok (h, m).

End VHook.

(** *** Pointers in memory *)

Fixpoint le_decode (bs : list byte) : N :=
  match bs with
  | [] => 0
  | b :: rest => Byte.to_N b + 256 * le_decode rest
  end.

Fixpoint le_encode (n : nat) (v : N) : list byte :=
  match n with
  | O => []
  | S k => default x00 (Byte.of_N (v mod 256)) :: le_encode k (v / 256)
  end.

(** The bytes of the pointer sized cell at [slot], and the pointer there. *)
Definition slot_bytes (dm : DataModel) (m : Mem) (slot : N) : list byte :=
  load_bytes m slot (N.to_nat (sizeof_pointer dm)).

Definition read_pointer (dm : DataModel) (m : Mem) (slot : N) : N :=
  le_decode (slot_bytes dm m slot).

Definition write_pointer (dm : DataModel) (m : Mem) (slot v : N) : Mem :=
  store_bytes m slot (le_encode (N.to_nat (sizeof_pointer dm)) v).

End VTableHook.

(** ** Concrete instances used to exercise the model *)

Module Samples.

Import VTableHook.

(** Bridge creation that succeeds: the bridge is emitted at [addr]. *)
Definition bridge_at (addr : N) : NatHook := {|
  Bridge := N;
  createBridge := fun _ m => (true, addr, store_bytes m addr [x55; x48; xc3]);
  getBridge := fun b => b
|}.

(** Bridge creation that fails and changes nothing. *)
Definition no_bridge : NatHook := {|
  Bridge := N;
  createBridge := fun b m => (false, b, m);
  getBridge := fun b => b
|}.

Definition zero_memory : Mem := fun _ => x00.

(** A vtable whose slot at [0x5000] points at the function at [0x401000]. *)
Definition vtable_memory : Mem := write_pointer LP64 zero_memory 0x5000 0x401000.

Definition fresh_vhook (fnAddress : N) : @VHook (bridge_at 0x7000) :=
  mkVHook (base := bridge_at 0x7000) 0 false fnAddress.

Definition active_vhook (fnAddress : N) : @VHook (bridge_at 0x7000) :=
  mkVHook (base := bridge_at 0x7000) 0x7000 true fnAddress.

Definition idle_vhook (fnAddress : N) : @VHook no_bridge :=
  mkVHook (base := no_bridge) 0 false fnAddress.

(** A convention as a user constructs it: a [bool] with an explicit size of
    one byte, an [int] and a pointer left to [init], an aggregate passed in a
    register with no size given; it returns a [double]. *)
Definition mixed_convention : ICallingConvention :=
  mkConvention
    [ mkDataObject Bool NONE 1;
      mkDataObject Int NONE 0;
      mkDataObject Pointer (REG 2) 0;
      mkDataObject Object (REG 3) 0 ]
    (mkDataObject Double (REG 16) 0)
    8 0 0 [] [].

(** An ABI for experiments: the snapshot is known by its base address;
    argument [i] lives 16 bytes after argument [i - 1], the return value at
    offset [0x100]. *)
Definition flat_abi : ConventionABI := {|
  Registers := N;
  getArgumentPtr := fun i base => base + 16 * N.of_nat i;
  getReturnPtr := fun base => base + 0x100
|}.

Definition snapshot : @Registers flat_abi := 0x1000.

(** The original is called from a pre callback, and calls itself the hooked
    function once more. *)
Definition nested_calls : list (@return_op flat_abi) :=
  [OpSave snapshot; OpWrite 0x1100 [xff; xff]; OpSave snapshot;
   OpRestore snapshot; OpRestore snapshot].

(** Memory whose byte at address [a] is [a mod 256]. *)
Definition counting_memory : Mem :=
  fun a => default x00 (Byte.of_N (a mod 256)).

(** [mixed_convention] after [init] under LP64. *)
Definition mixed_convention_ready : ICallingConvention :=
  mkConvention
    [ mkDataObject Bool NONE 1;
      mkDataObject Int NONE 8;
      mkDataObject Pointer (REG 2) 8;
      mkDataObject Object (REG 3) 0 ]
    (mkDataObject Double (REG 16) 8)
    8 9 8 [] [].

End Samples.

(** ** Vocabulary for further properties *)

Module Callers.

Import VTableHook Samples.

(** A descriptor whose size [init] has to infer through [Align]: no size
    was given and the type is one of those [GetDataTypeSize] aligns. *)
Definition needs_alignment (d : DataObject) : bool :=
  (size d =? 0)
  && negb (bool_decide (type d = Void) || bool_decide (type d = Object)).

(** Number of saves and of restores in a run of the dispatcher. *)
Fixpoint saves_in {abi : ConventionABI} (ops : list return_op) : nat :=
  match ops with
  | [] => 0
  | OpSave _ :: rest => S (saves_in rest)
  | _ :: rest => saves_in rest
  end.

Fixpoint restores_in {abi : ConventionABI} (ops : list return_op) : nat :=
  match ops with
  | [] => 0
  | OpRestore _ :: rest => S (restores_in rest)
  | _ :: rest => restores_in rest
  end.

(** What the owner of a [VHook] does with it over time. *)
Inductive hook_call : Type :=
| CallHook
| CallUnhook.

Fixpoint run_hook_calls {base : NatHook} (ndebug : bool)
    (calls : list hook_call) (h : VHook) (m : Mem) : result (VHook * Mem) :=
  match calls with
  | [] => Ok (h, m)
  | CallHook :: rest =>
      '(_, h', m') ← hook ndebug h m;
      run_hook_calls ndebug rest h' m'
  | CallUnhook :: rest =>
      '(_, h', m') ← unhook ndebug h m;
      run_hook_calls ndebug rest h' m'
  end.

(** A convention built with an alignment of 65536. *)
Definition wide_convention : ICallingConvention :=
  mkConvention
    [ mkDataObject Int NONE 0; mkDataObject Void NONE 0 ]
    (mkDataObject Pointer (REG 0) 0)
    65536 0 0 [] [].

(** A convention built with alignment 0: every size is given, except for
    the [void] return. *)
Definition unaligned_convention : ICallingConvention :=
  mkConvention
    [ mkDataObject Int NONE 4; mkDataObject Object (REG 1) 12 ]
    (mkDataObject Void NONE 0)
    0 0 0 [] [].

(** A convention where every size is left to [init]. *)
Definition inferred_convention : ICallingConvention :=
  mkConvention
    [ mkDataObject Char NONE 0; mkDataObject Double (REG 17) 0;
      mkDataObject M128 (REG 18) 0 ]
    (mkDataObject Int (REG 0) 0)
    8 0 0 [] [].

(** [mixed_convention_ready] with cached byte counts that are too small,
    respectively larger than needed. *)
Definition stale_convention : ICallingConvention :=
  mkConvention (m_arguments mixed_convention_ready)
    (m_return mixed_convention_ready) 8 9 0 [] [].

Definition roomy_convention : ICallingConvention :=
  mkConvention (m_arguments mixed_convention_ready)
    (m_return mixed_convention_ready) 8 16 8 [] [].

(** [mixed_convention_ready] in the middle of a call of the original: one
    return buffer and one argument buffer are outstanding. *)
Definition suspended_convention : ICallingConvention :=
  mkConvention (m_arguments mixed_convention_ready)
    (m_return mixed_convention_ready) 8 9 8
    [load_bytes counting_memory 0x1100 8]
    [arguments_image (abi := flat_abi) snapshot counting_memory
       (m_arguments mixed_convention_ready) 0].

(** The same with an argument buffer that is one byte short. *)
Definition truncated_convention : ICallingConvention :=
  mkConvention (m_arguments mixed_convention_ready)
    (m_return mixed_convention_ready) 8 9 8
    []
    [replicate 16 x00].

End Callers.

(** * Memory and buffers *)

Module MemoryProps.

Lemma length_load_bytes (m : Mem) (p : N) (n : nat) :
  length (load_bytes m p n) = n.
Proof. unfold load_bytes. rewrite length_fmap. apply length_seq. Qed.

Lemma lookup_load_bytes (m : Mem) (p : N) (n i : nat) :
  (i < n)%nat -> load_bytes m p n !! i = Some (m (p + N.of_nat i)).
Proof.
  intros Hi. unfold load_bytes. rewrite list_lookup_fmap.
  rewrite lookup_seq_lt by exact Hi. reflexivity.
Qed.

(** Two loads agree when the memories agree on the range. *)
Lemma load_bytes_ext (m1 m2 : Mem) (p : N) (n : nat) :
  (forall i : nat, (i < n)%nat -> m1 (p + N.of_nat i) = m2 (p + N.of_nat i)) ->
  load_bytes m1 p n = load_bytes m2 p n.
Proof.
  intros Hext. apply list_eq. intros i.
  destruct (decide (i < n)%nat) as [Hi|Hi].
  - rewrite !lookup_load_bytes by exact Hi. f_equal. apply Hext, Hi.
  - rewrite !lookup_ge_None_2; [reflexivity| |];
      rewrite length_load_bytes; lia.
Qed.

Lemma store_bytes_inside (m : Mem) (p : N) (bs : list byte) (i : nat) (b : byte) :
  bs !! i = Some b -> store_bytes m p bs (p + N.of_nat i) = b.
Proof.
  intros Hb. unfold store_bytes.
  destruct (N.leb_spec p (p + N.of_nat i)) as [_|Hlt]; [|lia].
  replace (N.to_nat (p + N.of_nat i - p)) with i by lia.
  rewrite Hb. reflexivity.
Qed.

Lemma store_bytes_outside (m : Mem) (p : N) (bs : list byte) (a : N) :
  a < p \/ p + N.of_nat (length bs) <= a -> store_bytes m p bs a = m a.
Proof.
  intros Ha. unfold store_bytes.
  destruct (N.leb_spec p a) as [Hle|Hlt]; [|reflexivity].
  rewrite lookup_ge_None_2; [reflexivity|lia].
Qed.

(** Reading back what was just written. *)
Lemma load_store_same (m : Mem) (p : N) (bs : list byte) :
  load_bytes (store_bytes m p bs) p (length bs) = bs.
Proof.
  apply list_eq. intros i.
  destruct (bs !! i) as [b|] eqn:Hb.
  - rewrite lookup_load_bytes by (apply lookup_lt_Some in Hb; exact Hb).
    f_equal. apply store_bytes_inside, Hb.
  - apply lookup_ge_None_2. rewrite length_load_bytes.
    apply lookup_ge_None_1 in Hb. exact Hb.
Qed.

(** A write does not show in a range it does not touch. *)
Lemma load_store_disjoint (m : Mem) (p q : N) (bs : list byte) (n : nat) :
  disjoint_ranges p (N.of_nat (length bs)) q (N.of_nat n) ->
  load_bytes (store_bytes m p bs) q n = load_bytes m q n.
Proof.
  intros Hd. apply load_bytes_ext. intros i Hi.
  apply store_bytes_outside. unfold disjoint_ranges in Hd. lia.
Qed.

Lemma length_make_buffer (n : N) : length (make_buffer n) = N.to_nat n.
Proof. apply length_replicate. Qed.

(** Filling a whole buffer from its start. *)
Lemma buffer_write_whole (buf data : list byte) :
  length data = length buf -> buffer_write buf 0 data = Ok data.
Proof.
  intros Hlen. unfold buffer_write. simpl.
  rewrite decide_True by lia.
  rewrite drop_ge by lia. rewrite app_nil_r. reflexivity.
Qed.

Lemma buffer_read_whole (buf : list byte) (n : N) :
  length buf = N.to_nat n -> buffer_read buf 0 n = Ok buf.
Proof.
  intros Hlen. unfold buffer_read.
  change (N.to_nat 0) with 0%nat. cbv zeta.
  rewrite decide_True by lia.
  rewrite drop_0, take_ge by lia. reflexivity.
Qed.

End MemoryProps.

(** * Properties of the calling convention record *)

Module ConventionProps.

Import MemoryProps.

(** *** Alignment *)

Lemma ceil_div_exact (q a : N) : 0 < a -> ceil_div (a * q) a = q.
Proof.
  intros Ha. unfold ceil_div. symmetry.
  apply (N.div_unique _ _ _ (a - 1)); lia.
Qed.

Lemma ceil_div_inexact (q r a : N) :
  0 < r -> r < a -> ceil_div (a * q + r) a = q + 1.
Proof.
  intros Hr Ha. unfold ceil_div. symmetry.
  apply (N.div_unique _ _ _ (r - 1)); lia.
Qed.

(** [AlignSpec] rounds up to the next multiple, by less than [a]. *)
Lemma AlignSpec_cases (s a : N) :
  0 < a ->
  (s mod a = 0 /\ AlignSpec s a = s)
  \/ (0 < s mod a /\ AlignSpec s a = s + (a - s mod a)).
Proof.
  intros Ha. unfold AlignSpec.
  pose proof (N.div_mod s a ltac:(lia)) as Hdm.
  pose proof (N.mod_lt s a ltac:(lia)) as Hlt.
  revert Hdm Hlt. generalize (s / a) (s mod a). intros q r -> Hlt.
  destruct (N.eq_dec r 0) as [->|Hnz].
  - left. split; [reflexivity|].
    rewrite N.add_0_r, ceil_div_exact by exact Ha. lia.
  - right. split; [lia|].
    rewrite ceil_div_inexact by lia. lia.
Qed.

Lemma AlignSpec_bounds (s a : N) :
  0 < a -> s <= AlignSpec s a /\ AlignSpec s a < s + a.
Proof.
  intros Ha. pose proof (N.mod_lt s a ltac:(lia)).
  destruct (AlignSpec_cases s a Ha) as [[? ->]|[? ->]]; lia.
Qed.

Lemma AlignSpec_pos (s a : N) : 0 < a -> (0 < AlignSpec s a <-> 0 < s).
Proof.
  intros Ha. pose proof (AlignSpec_bounds s a Ha).
  pose proof (N.Div0.mod_le s a).
  destruct (AlignSpec_cases s a Ha) as [[? Heq]|[? Heq]]; lia.
Qed.

(** The code's [Align] computes [ceil(s / a) * a] as long as the result
    fits [size_t]. *)
Lemma Align_spec (dm : DataModel) (s a : N) :
  0 < a -> s + a <= 2 ^ size_t_bits dm ->
  Align dm s a = Ok (AlignSpec s a).
Proof.
  intros Ha Hfit. unfold Align.
  destruct (N.eqb_spec a 0) as [->|_]; [lia|].
  pose proof (N.mod_lt s a ltac:(lia)) as Hlt.
  destruct (AlignSpec_cases s a Ha) as [[Hz ->]|[Hnz ->]].
  - rewrite Hz. reflexivity.
  - destruct (N.eqb_spec (s mod a) 0) as [Hz|_]; [lia|].
    unfold wrap_size_t. rewrite N.mod_small by lia. reflexivity.
Qed.

Lemma Align_zero_alignment (dm : DataModel) (s : N) :
  Align dm s 0 = Fault DivisionByZero.
Proof. reflexivity. Qed.

Lemma raw_size_le_64 (dm : DataModel) (ty : DataType) : raw_size dm ty <= 64.
Proof. destruct dm, ty; vm_compute; discriminate. Qed.

Lemma raw_size_pos (dm : DataModel) (ty : DataType) :
  0 < raw_size dm ty <-> ty <> Void /\ ty <> Object.
Proof.
  destruct dm, ty; simpl; split; try lia; try (intros [? ?]; congruence);
    intros _; split; discriminate.
Qed.

Lemma size_t_large (dm : DataModel) : 2 ^ 32 <= 2 ^ size_t_bits dm.
Proof. destruct dm; vm_compute; discriminate. Qed.

Lemma wrap_size_t_small (dm : DataModel) (x : N) :
  x < 2 ^ 32 -> wrap_size_t dm x = x.
Proof.
  intros Hx. pose proof (size_t_large dm).
  unfold wrap_size_t. apply N.mod_small. lia.
Qed.

(** [GetDataTypeSize] is the aligned raw size, for alignments that a
    [uint16_t] size can hold. *)
Lemma GetDataTypeSize_spec (dm : DataModel) (ty : DataType) (a : N) :
  0 < a -> a < 2 ^ 16 ->
  GetDataTypeSize dm ty a = Ok (AlignSpec (raw_size dm ty) a).
Proof.
  intros Ha Hsmall.
  assert (Hfit : raw_size dm ty + a <= 2 ^ size_t_bits dm).
  { pose proof (size_t_large dm) as Hw.
    pose proof (raw_size_le_64 dm ty).
    change (2 ^ 32) with 4294967296 in Hw.
    change (2 ^ 16) with 65536 in Hsmall. lia. }
  assert (Hzero : Ok 0 = Ok (AlignSpec 0 a)).
  { f_equal. pose proof (AlignSpec_pos 0 a Ha). lia. }
  destruct ty; cbn [GetDataTypeSize raw_size] in *; try exact Hzero;
    rewrite ?wrap_size_t_small by reflexivity;
    apply Align_spec; assumption.
Qed.

Lemma AlignSpec_u16 (s a : N) :
  0 < a -> a < 2 ^ 16 -> s <= 64 -> AlignSpec s a < 2 ^ 16.
Proof.
  intros Ha Hsmall Hs. change (2 ^ 16) with 65536 in *.
  destruct (AlignSpec_cases s a Ha) as [[_ ->]|[_ ->]]; [lia|].
  destruct (N.lt_ge_cases s a) as [Hlt|Hge].
  - rewrite N.mod_small by exact Hlt. lia.
  - generalize (s mod a). intros r. lia.
Qed.

(** *** [init] *)

Lemma fill_size_filled (dm : DataModel) (a : N) (d : DataObject) :
  0 < a -> a < 2 ^ 16 ->
  exists d', fill_size dm a d = Ok d' /\ descriptor_filled dm a d d'.
Proof.
  intros Ha Hsmall. unfold fill_size.
  destruct (N.eqb_spec (size d) 0) as [Hz|Hnz].
  - rewrite GetDataTypeSize_spec by assumption. simpl.
    eexists. split; [reflexivity|].
    unfold descriptor_filled, wrap_u16. simpl.
    rewrite N.mod_small
      by (apply AlignSpec_u16; [assumption..|apply raw_size_le_64]).
    repeat split; try congruence;
      rewrite AlignSpec_pos, raw_size_pos in * by exact Ha; tauto.
  - exists d. split; [reflexivity|].
    unfold descriptor_filled. repeat split; congruence.
Qed.

(** Without a bound on the alignment, [fill_size] still only touches the
    size, and only when it is zero. *)
Lemma fill_size_keeps (dm : DataModel) (a : N) (d d' : DataObject) :
  fill_size dm a d = Ok d' ->
  type d' = type d /\ reg d' = reg d /\ (size d <> 0 -> d' = d).
Proof.
  unfold fill_size. destruct (N.eqb_spec (size d) 0) as [Hz|Hnz].
  - destruct (GetDataTypeSize dm (type d) a); simpl; [|discriminate].
    intros [= <-]. simpl. repeat split; congruence.
  - intros [= <-]. auto.
Qed.

Lemma fill_size_ok (dm : DataModel) (a : N) (d : DataObject) :
  0 < a -> is_Ok (fill_size dm a d).
Proof.
  intros Ha. unfold fill_size, is_Ok.
  destruct (size d =? 0); [|eauto].
  assert (HA : forall s, is_Ok (Align dm s a)).
  { intros s. unfold Align, is_Ok.
    destruct (N.eqb_spec a 0); [lia|].
    destruct (s mod a =? 0); eauto. }
  assert (HG : is_Ok (GetDataTypeSize dm (type d) a)).
  { destruct (type d); simpl; try apply HA; unfold is_Ok; eauto. }
  destruct HG as [s ->]. simpl. eauto.
Qed.

(** The loop of [init] accumulates, modulo the width of [size_t], the sizes
    of the stack resident and of the register resident descriptors it
    leaves behind, and treats each descriptor with [fill_size]. *)
Lemma init_arguments_sums (dm : DataModel) (a : N) (args : list DataObject) :
  forall (s0 r0 : N) (args' : list DataObject) (s r : N),
    s0 < 2 ^ size_t_bits dm -> r0 < 2 ^ size_t_bits dm ->
    init_arguments dm a args s0 r0 = Ok (args', s, r) ->
    s = wrap_size_t dm (s0 + stack_bytes args')
    /\ r = wrap_size_t dm (r0 + register_bytes args')
    /\ Forall2 (fun d d' => fill_size dm a d = Ok d') args args'.
Proof.
  assert (Hpos : 0 < 2 ^ size_t_bits dm) by (destruct dm; reflexivity).
  induction args as [|d rest IH]; intros s0 r0 args' s r Hs0 Hr0 Hrun.
  - simpl in Hrun. injection Hrun as <- <- <-. simpl.
    unfold wrap_size_t. rewrite !N.add_0_r, !N.mod_small by assumption.
    auto.
  - simpl in Hrun.
    destruct (fill_size dm a d) as [d'|] eqn:Hd; simpl in Hrun; [|discriminate].
    destruct (init_arguments dm a rest _ _) as [[[rest' s1] r1]|] eqn:Hrest;
      simpl in Hrun; [|discriminate].
    injection Hrun as <- <- <-.
    apply IH in Hrest as (Hs & Hr & Hall).
    + split; [|split; [|constructor; assumption]].
      * rewrite Hs. simpl. unfold wrap_size_t.
        destruct (decide (reg d' = NONE)).
        -- rewrite N.Div0.add_mod_idemp_l. f_equal. lia.
        -- f_equal.
      * rewrite Hr. simpl. unfold wrap_size_t.
        destruct (decide (reg d' = NONE)).
        -- f_equal.
        -- rewrite N.Div0.add_mod_idemp_l. f_equal. lia.
    + destruct (decide (reg d' = NONE)); [|assumption].
      apply N.mod_lt. lia.
    + destruct (decide (reg d' = NONE)); [assumption|].
      apply N.mod_lt. lia.
Qed.

Lemma init_arguments_ok (dm : DataModel) (a : N) (args : list DataObject) :
  0 < a -> forall s0 r0, is_Ok (init_arguments dm a args s0 r0).
Proof.
  intros Ha. induction args as [|d rest IH]; intros s0 r0.
  - simpl. unfold is_Ok. eauto.
  - simpl. destruct (fill_size_ok dm a d Ha) as [d' ->]. simpl.
    match goal with
    | |- context [init_arguments dm a rest ?x ?y] =>
        destruct (IH x y) as [[[rest' s] r] ->]
    end.
    simpl. unfold is_Ok. eauto.
Qed.

Lemma init_unfold (dm : DataModel) (c c' : ICallingConvention) :
  init dm c = Ok c' ->
  exists args s r ret,
    init_arguments dm (m_alignment c) (m_arguments c) 0 0 = Ok (args, s, r)
    /\ fill_size dm (m_alignment c) (m_return c) = Ok ret
    /\ c' = mkConvention args ret (m_alignment c) s r
              (m_savedReturnBuffers c) (m_savedCallArguments c).
Proof.
  unfold init. intros Hinit.
  destruct (init_arguments dm _ _ 0 0) as [[[args s] r]|]; simpl in Hinit;
    [|discriminate].
  destruct (fill_size dm _ (m_return c)) as [ret|]; simpl in Hinit;
    [|discriminate].
  injection Hinit as <-. eauto 10.
Qed.

Lemma init_ok (dm : DataModel) (c : ICallingConvention) :
  0 < m_alignment c -> is_Ok (init dm c).
Proof.
  intros Ha. unfold init.
  destruct (init_arguments_ok dm _ (m_arguments c) Ha 0 0) as [[[args s] r] ->].
  destruct (fill_size_ok dm _ (m_return c) Ha) as [ret ->].
  simpl. unfold is_Ok. eauto.
Qed.

(** C5 (as the code has it): for an alignment between 1 and 65535, [init]
    returns and treats every argument descriptor and the return descriptor
    as follows.  A descriptor constructed with size 0 gets the size
    [ceil(raw_size / alignment) * alignment], which is positive exactly when
    its type is neither [Void] nor [Object]; a descriptor constructed with a
    size keeps that size.  Type and register are kept.  [GetDataTypeSize]
    is the aligned raw size, where the raw size of M128, M256 and M512 is
    16, 32 and 64 and that of [Pointer] and [String] is the pointer size of
    the platform. *)
Theorem init_descriptor_sizes (dm : DataModel) (c : ICallingConvention) :
  0 < m_alignment c -> m_alignment c < 2 ^ 16 ->
  exists c',
    init dm c = Ok c'
    /\ m_alignment c' = m_alignment c
    /\ Forall2 (descriptor_filled dm (m_alignment c))
         (m_arguments c) (m_arguments c')
    /\ descriptor_filled dm (m_alignment c) (m_return c) (m_return c')
    /\ (forall ty, GetDataTypeSize dm ty (m_alignment c)
                   = Ok (AlignSpec (raw_size dm ty) (m_alignment c)))
    /\ raw_size dm M128 = 16 /\ raw_size dm M256 = 32 /\ raw_size dm M512 = 64
    /\ raw_size dm Pointer = sizeof_pointer dm
    /\ raw_size dm String = sizeof_pointer dm.
Proof.
  intros Ha Hsmall.
  assert (Hfill : forall d d', fill_size dm (m_alignment c) d = Ok d' ->
                    descriptor_filled dm (m_alignment c) d d').
  { intros d d' Hd.
    destruct (fill_size_filled dm (m_alignment c) d Ha Hsmall) as (d2 & Hd2 & Hf).
    congruence. }
  destruct (init_ok dm c Ha) as [c' Hinit]. exists c'.
  split; [exact Hinit|].
  apply init_unfold in Hinit as (args & s & r & ret & Hargs & Hret & ->).
  apply init_arguments_sums in Hargs as (_ & _ & Hall);
    [|destruct dm; reflexivity..].
  simpl. split; [reflexivity|]. split.
  { eapply Forall2_impl; [exact Hall|]. exact Hfill. }
  split; [apply Hfill, Hret|].
  split; [intros ty; apply GetDataTypeSize_spec; assumption|].
  repeat split; reflexivity.
Qed.

(** C6: after [init] the cached stack and register byte counts are the sums
    of the sizes of the arguments whose register is [NONE], respectively is
    a register, taken in [size_t]; they are these sums whenever the sums are
    representable in [size_t]. *)
Theorem init_cached_sizes (dm : DataModel) (c : ICallingConvention) :
  0 < m_alignment c ->
  exists c',
    init dm c = Ok c'
    /\ getArgStackSize c' = wrap_size_t dm (stack_bytes (m_arguments c'))
    /\ getArgRegisterSize c' = wrap_size_t dm (register_bytes (m_arguments c'))
    /\ (stack_bytes (m_arguments c') < 2 ^ size_t_bits dm ->
        getArgStackSize c' = stack_bytes (m_arguments c'))
    /\ (register_bytes (m_arguments c') < 2 ^ size_t_bits dm ->
        getArgRegisterSize c' = register_bytes (m_arguments c')).
Proof.
  intros Ha. destruct (init_ok dm c Ha) as [c' Hinit]. exists c'.
  split; [exact Hinit|].
  apply init_unfold in Hinit as (args & s & r & ret & Hargs & _ & ->).
  apply init_arguments_sums in Hargs as (-> & -> & _);
    [|destruct dm; reflexivity..].
  unfold getArgStackSize, getArgRegisterSize, wrap_size_t. simpl.
  repeat split; try reflexivity; intros Hfit; apply N.mod_small, Hfit.
Qed.

Import Samples.

Lemma init_descriptor_sizes_witness :
  exists c',
    init LP64 mixed_convention = Ok c'
    /\ Forall2 (descriptor_filled LP64 8)
         (m_arguments mixed_convention) (m_arguments c')
    /\ descriptor_filled LP64 8 (m_return mixed_convention) (m_return c').
Proof.
  destruct (init_descriptor_sizes LP64 mixed_convention)
    as (c' & Hinit & _ & Hargs & Hret & _); [reflexivity..|].
  exists c'. auto.
Defined.

(** C5 fails as stated: in [mixed_convention], alignment 8, the [bool]
    constructed with size 1 keeps size 1 although its aligned size is 8, and
    the aggregate constructed without a size ends with size 0 although its
    type is not [Void]. *)
Lemma init_descriptor_sizes_counterexample :
  exists c' d0 d3,
    init LP64 mixed_convention = Ok c'
    /\ m_arguments c' !! 0%nat = Some d0
    /\ size d0 = 1
    /\ AlignSpec (raw_size LP64 (type d0)) (m_alignment c') = 8
    /\ size d0 <> AlignSpec (raw_size LP64 (type d0)) (m_alignment c')
    /\ m_arguments c' !! 3%nat = Some d3
    /\ type d3 <> Void
    /\ size d3 = 0
    /\ ~ (0 < size d3 <-> type d3 <> Void).
Proof.
  eexists _, _, _. split; [vm_compute; reflexivity|].
  simpl. repeat split; try reflexivity; try (vm_compute; discriminate).
  intros [_ Hpos]. specialize (Hpos ltac:(discriminate)).
  simpl in Hpos. lia.
Qed.

Lemma init_cached_sizes_witness :
  exists c',
    init LP64 mixed_convention = Ok c'
    /\ getArgStackSize c' = 9
    /\ getArgRegisterSize c' = 8
    /\ stack_bytes (m_arguments c') = 9
    /\ register_bytes (m_arguments c') = 8.
Proof.
  destruct (init_cached_sizes LP64 mixed_convention)
    as (c' & Hinit & _ & _ & Hstack & Hreg); [reflexivity|].
  exists c'. split; [exact Hinit|].
  vm_compute in Hinit. injection Hinit as <-.
  rewrite Hstack, Hreg by reflexivity.
  repeat split; reflexivity.
Defined.

(** *** The return buffers *)

Lemma set_savedReturnBuffers_same (c : ICallingConvention) :
  set_savedReturnBuffers c (m_savedReturnBuffers c) = c.
Proof. destruct c. reflexivity. Qed.

Lemma set_savedReturnBuffers_twice (c : ICallingConvention)
    (b1 b2 : list (list byte)) :
  set_savedReturnBuffers (set_savedReturnBuffers c b1) b2
  = set_savedReturnBuffers c b2.
Proof. reflexivity. Qed.

Section ReturnBuffers.

Context {abi : ConventionABI}.

Lemma saveReturnValue_pushes (registers : Registers)
    (c : ICallingConvention) (m : Mem) :
  saveReturnValue registers c m
  = Ok (set_savedReturnBuffers c
          (m_savedReturnBuffers c ++ [return_image registers c m])).
Proof.
  unfold saveReturnValue, return_image.
  rewrite buffer_write_whole
    by (rewrite length_load_bytes, length_make_buffer; reflexivity).
  reflexivity.
Qed.

Lemma restoreReturnValue_pops (registers : Registers)
    (c : ICallingConvention) (m : Mem) (bufs : list (list byte))
    (b : list byte) :
  m_savedReturnBuffers c = bufs ++ [b] ->
  length b = N.to_nat (size (m_return c)) ->
  restoreReturnValue registers c m
  = Ok (set_savedReturnBuffers c bufs,
        store_bytes m (getReturnPtr registers) b).
Proof.
  intros Hstack Hlen. unfold restoreReturnValue.
  rewrite Hstack, last_snoc, removelast_last.
  rewrite buffer_read_whole by exact Hlen. reflexivity.
Qed.

Lemma restoreReturnValue_empty (registers : Registers)
    (c : ICallingConvention) (m : Mem) :
  m_savedReturnBuffers c = [] ->
  restoreReturnValue registers c m = Fault EmptyStack.
Proof. intros Hstack. unfold restoreReturnValue. rewrite Hstack. reflexivity. Qed.

Lemma run_return_ops_ok (ops : list return_op) :
  forall (c : ICallingConvention) (m : Mem),
    buffers_sized c ->
    well_nested (length (m_savedReturnBuffers c)) ops = true ->
    exists c' m',
      run_return_ops ops c m = Ok (c', m') /\ buffers_sized c'.
Proof.
  induction ops as [|[registers|registers|p bs] rest IH]; intros c m Hsized Hnest.
  - simpl. eauto.
  - simpl. rewrite saveReturnValue_pushes. simpl. apply IH.
    + unfold buffers_sized in *. simpl. apply Forall_app. split; [exact Hsized|].
      constructor; [|constructor]. apply length_load_bytes.
    + simpl in *. rewrite length_app. simpl.
      replace (length (m_savedReturnBuffers c) + 1)%nat
        with (S (length (m_savedReturnBuffers c))) by lia.
      exact Hnest.
  - simpl in Hnest.
    destruct (m_savedReturnBuffers c) as [|b0 bufs0] eqn:Hstack using rev_ind;
      [discriminate|].
    clear IHbufs0. rewrite length_app in Hnest. simpl in Hnest.
    replace (length bufs0 + 1)%nat with (S (length bufs0)) in Hnest by lia.
    assert (Hb0 : length b0 = N.to_nat (size (m_return c))).
    { unfold buffers_sized in Hsized. rewrite Hstack in Hsized.
      apply Forall_app in Hsized as [_ Hlast].
      inversion Hlast; assumption. }
    simpl. rewrite (restoreReturnValue_pops _ _ _ _ _ Hstack Hb0). simpl.
    apply IH; [|exact Hnest].
    unfold buffers_sized in *. simpl. rewrite Hstack in Hsized.
    apply Forall_app in Hsized as [Hinit _]. exact Hinit.
  - simpl. apply IH; assumption.
Qed.

(** C7: [saveReturnValue] pushes a buffer holding the [m_return.size] bytes
    of the return slot; [restoreReturnValue] pops the buffer pushed last and
    writes it to the return slot.  So, whatever the memory [m1] has become
    after a save, restoring brings the slot back to the saved bytes and the
    convention record, hence the depth of the stack, back to what it was
    before the save; and of two nested saves the inner one is restored
    first. *)
Theorem save_restore_return_value (registers inner : Registers)
    (c : ICallingConvention) (m m1 m2 : Mem) :
  let n := N.to_nat (size (m_return c)) in
  let saved := load_bytes m (getReturnPtr registers) n in
  let c1 := set_savedReturnBuffers c (m_savedReturnBuffers c ++ [saved]) in
  let saved1 := load_bytes m1 (getReturnPtr inner) n in
  let c2 := set_savedReturnBuffers c1 (m_savedReturnBuffers c1 ++ [saved1]) in
  saveReturnValue registers c m = Ok c1
  /\ length saved = n
  /\ length (m_savedReturnBuffers c1) = S (length (m_savedReturnBuffers c))
  /\ restoreReturnValue registers c1 m1
     = Ok (c, store_bytes m1 (getReturnPtr registers) saved)
  /\ load_bytes (store_bytes m1 (getReturnPtr registers) saved)
       (getReturnPtr registers) n = saved
  /\ saveReturnValue inner c1 m1 = Ok c2
  /\ restoreReturnValue inner c2 m2
     = Ok (c1, store_bytes m2 (getReturnPtr inner) saved1).
Proof.
  intros n saved c1 saved1 c2.
  assert (Hsaved : length saved = n) by apply length_load_bytes.
  assert (Hsaved1 : length saved1 = n) by apply length_load_bytes.
  split; [apply saveReturnValue_pushes|].
  split; [exact Hsaved|].
  split; [subst c1; simpl; rewrite length_app; simpl; lia|].
  split.
  { rewrite (restoreReturnValue_pops registers c1 m1
               (m_savedReturnBuffers c) saved) by (reflexivity || exact Hsaved).
    subst c1. rewrite set_savedReturnBuffers_twice,
      set_savedReturnBuffers_same. reflexivity. }
  split.
  { pose proof (load_store_same m1 (getReturnPtr registers) saved) as Hback.
    rewrite Hsaved in Hback. exact Hback. }
  split; [apply saveReturnValue_pushes|].
  rewrite (restoreReturnValue_pops inner c2 m2
             (m_savedReturnBuffers c1) saved1) by (reflexivity || exact Hsaved1).
  reflexivity.
Qed.

(** C9: on an empty stack [restoreReturnValue] is outside its precondition
    (the model faults). Starting from a convention with no saved buffers, a
    run in which every restore is preceded by a save not yet restored never
    reaches that case, nor a copy that leaves its buffer: it returns. *)
Theorem restore_return_value_safe (ops : list return_op)
    (registers : Registers) (c : ICallingConvention) (m : Mem) :
  m_savedReturnBuffers c = [] ->
  well_nested 0 ops = true ->
  restoreReturnValue registers c m = Fault EmptyStack
  /\ exists c' m', run_return_ops ops c m = Ok (c', m').
Proof.
  intros Hstack Hnest. split; [apply restoreReturnValue_empty, Hstack|].
  destruct (run_return_ops_ok ops c m) as (c' & m' & Hrun & _).
  - unfold buffers_sized. rewrite Hstack. constructor.
  - rewrite Hstack. exact Hnest.
  - eauto.
Qed.

End ReturnBuffers.

Lemma restore_return_value_safe_witness :
  exists c' m',
    run_return_ops nested_calls mixed_convention_ready counting_memory
    = Ok (c', m').
Proof.
  apply (restore_return_value_safe nested_calls snapshot
           mixed_convention_ready counting_memory); reflexivity.
Defined.

(** *** The argument buffers *)

Lemma set_savedCallArguments_same (c : ICallingConvention) :
  set_savedCallArguments c (m_savedCallArguments c) = c.
Proof. destruct c. reflexivity. Qed.

Lemma stack_register_total (args : list DataObject) :
  stack_bytes args + register_bytes args = total_bytes args.
Proof.
  induction args as [|d rest IH]; [reflexivity|]. simpl.
  destruct (decide (reg d = NONE)); lia.
Qed.

Section ArgumentBuffers.

Context {abi : ConventionABI}.
Variable dm : DataModel.

Lemma length_arguments_image (registers : Registers) (m : Mem)
    (args : list DataObject) :
  forall i, length (arguments_image registers m args i)
            = N.to_nat (total_bytes args).
Proof.
  induction args as [|d rest IH]; intros i; [reflexivity|]. simpl.
  rewrite length_app, length_load_bytes, IH. lia.
Qed.

(** The save loop fills the buffer from [off] on with the argument bytes. *)
Lemma save_arguments_loop_image (registers : Registers) (m : Mem)
    (args : list DataObject) :
  forall (i : nat) (off : N) (buf : list byte),
    N.of_nat (length buf) = off + total_bytes args ->
    off + total_bytes args < 2 ^ size_t_bits dm ->
    save_arguments_loop dm registers m args i off buf
    = Ok (take (N.to_nat off) buf ++ arguments_image registers m args i).
Proof.
  induction args as [|d rest IH]; intros i off buf Hlen Hfit.
  - simpl in *. rewrite app_nil_r, take_ge by lia. reflexivity.
  - simpl in *.
    set (data := load_bytes m (getArgumentPtr i registers) (N.to_nat (size d))).
    assert (Hdata : length data = N.to_nat (size d)) by apply length_load_bytes.
    unfold buffer_write. rewrite decide_True by lia. simpl.
    unfold wrap_size_t. rewrite N.mod_small by lia.
    rewrite IH.
    + f_equal. rewrite app_assoc.
      rewrite (take_app_length' (take (N.to_nat off) buf ++ data));
        [rewrite <- app_assoc; reflexivity|].
      rewrite length_app, length_take. lia.
    + rewrite !length_app, length_take, length_drop. lia.
    + lia.
Qed.

(** In the image, argument [i] sits at [arg_offset args i]. *)
Lemma arguments_image_segment (registers : Registers) (m : Mem)
    (args : list DataObject) :
  forall (i j : nat) (d : DataObject),
    args !! i = Some d ->
    take (N.to_nat (size d))
      (drop (N.to_nat (arg_offset args i)) (arguments_image registers m args j))
    = load_bytes m (getArgumentPtr (j + i) registers) (N.to_nat (size d)).
Proof.
  unfold arg_offset.
  induction args as [|d0 rest IH]; intros i j d Hd; [discriminate|].
  destruct i as [|i].
  - injection Hd as ->. simpl. rewrite Nat.add_0_r.
    apply take_app_length'. rewrite length_load_bytes. reflexivity.
  - simpl in Hd. simpl.
    replace (N.to_nat (size d0 + total_bytes (take i rest)))
      with (length (load_bytes m (getArgumentPtr j registers)
                      (N.to_nat (size d0)))
            + N.to_nat (total_bytes (take i rest)))%nat
      by (rewrite length_load_bytes; lia).
    rewrite drop_app_add. rewrite (IH i (S j) d Hd).
    f_equal. f_equal. lia.
Qed.

Lemma total_bytes_take_le (args : list DataObject) (k : nat) (d : DataObject) :
  args !! k = Some d ->
  total_bytes (take k args) + size d <= total_bytes args.
Proof.
  revert k. induction args as [|d0 rest IH]; intros k Hd; [discriminate|].
  destruct k as [|k]; simpl in *.
  - injection Hd as ->. lia.
  - specialize (IH k Hd). lia.
Qed.

(** The restore loop returns; it leaves alone what lies clear of every
    argument; and when the arguments do not overlap, each of them ends up
    holding its part of the buffer. *)
Lemma restore_arguments_loop_spec (registers : Registers) (saved : list byte)
    (args : list DataObject) :
  forall (i : nat) (off : N) (m : Mem),
    off + total_bytes args <= N.of_nat (length saved) ->
    N.of_nat (length saved) < 2 ^ size_t_bits dm ->
    exists m2,
      restore_arguments_loop dm registers saved args i off m = Ok m2
      /\ (forall q n, range_clear_of registers q (N.of_nat n) args i ->
            load_bytes m2 q n = load_bytes m q n)
      /\ (arguments_disjoint registers args i ->
          forall k d, args !! k = Some d ->
            load_bytes m2 (getArgumentPtr (i + k) registers) (N.to_nat (size d))
            = take (N.to_nat (size d))
                (drop (N.to_nat (off + total_bytes (take k args))) saved)).
Proof.
  induction args as [|d0 rest IH]; intros i off m Hlen Hfit.
  - simpl. exists m. split; [reflexivity|]. split; [reflexivity|].
    intros _ k d Hd. discriminate.
  - simpl in Hlen. simpl.
    unfold buffer_read. rewrite decide_True by lia. simpl.
    unfold wrap_size_t. rewrite N.mod_small by lia.
    set (bytes := take (N.to_nat (size d0)) (drop (N.to_nat off) saved)).
    assert (Hbytes : length bytes = N.to_nat (size d0)).
    { subst bytes. rewrite length_take, length_drop. lia. }
    destruct (IH (S i) (off + size d0)
                (store_bytes m (getArgumentPtr i registers) bytes))
      as (m2 & Hrun & Hframe & Hback); [lia|exact Hfit|].
    exists m2. split; [exact Hrun|]. split.
    + intros q n [Hq Hrest]. rewrite (Hframe q n Hrest).
      apply load_store_disjoint. rewrite Hbytes, N2Nat.id. exact Hq.
    + intros [Hclear Hdisj] k d Hd. destruct k as [|k].
      * injection Hd as <-. simpl. rewrite Nat.add_0_r, N.add_0_r.
        rewrite Hframe by (rewrite N2Nat.id; exact Hclear).
        pose proof (load_store_same m (getArgumentPtr i registers) bytes)
          as Hsame.
        rewrite Hbytes in Hsame. exact Hsame.
      * simpl in Hd. simpl.
        replace (i + S k)%nat with (S i + k)%nat by lia.
        rewrite (Hback Hdisj k d Hd). f_equal. f_equal. lia.
Qed.

(** C8: after [init], when the sizes of all arguments together are
    representable in [size_t], [saveCallArguments] pushes one buffer of
    [getArgStackSize + getArgRegisterSize] bytes in which argument [i], read
    from its location, occupies its [size] bytes at the offset that is the
    sum of the sizes of the arguments before it.  [restoreCallArguments],
    whatever memory has become, pops that buffer, which brings the record
    back, and when the argument locations do not overlap every argument
    location holds the saved bytes again. *)
Theorem save_restore_call_arguments (registers : Registers)
    (c0 c : ICallingConvention) (m m1 : Mem) :
  init dm c0 = Ok c ->
  total_bytes (m_arguments c) < 2 ^ size_t_bits dm ->
  let args := m_arguments c in
  let buf := arguments_image registers m args 0 in
  let c1 := set_savedCallArguments c (m_savedCallArguments c ++ [buf]) in
  saveCallArguments dm registers c m = Ok c1
  /\ N.of_nat (length buf) = getArgStackSize c + getArgRegisterSize c
  /\ (forall i d, args !! i = Some d ->
        arg_segment args i d buf
        = load_bytes m (getArgumentPtr i registers) (N.to_nat (size d)))
  /\ exists m2,
       restoreCallArguments dm registers c1 m1 = Ok (c, m2)
       /\ (arguments_disjoint registers args 0 ->
           forall i d, args !! i = Some d ->
             load_bytes m2 (getArgumentPtr i registers) (N.to_nat (size d))
             = load_bytes m (getArgumentPtr i registers) (N.to_nat (size d))).
Proof.
  intros Hinit Hfit args buf c1.
  assert (Hcached : getArgStackSize c + getArgRegisterSize c = total_bytes args).
  { apply init_unfold in Hinit as (args' & s & r & ret & Hargs & _ & ->).
    apply init_arguments_sums in Hargs as (-> & -> & _);
      [|destruct dm; reflexivity..].
    subst args. simpl in *.
    pose proof (stack_register_total args') as Htot.
    unfold getArgStackSize, getArgRegisterSize, wrap_size_t. simpl.
    rewrite !N.mod_small by lia. exact Htot. }
  change (total_bytes args < 2 ^ size_t_bits dm) in Hfit.
  assert (Hstack : m_savedCallArguments c1 = m_savedCallArguments c ++ [buf])
    by reflexivity.
  assert (Hc1 : set_savedCallArguments c1 (m_savedCallArguments c) = c)
    by exact (set_savedCallArguments_same c).
  assert (Hc1args : m_arguments c1 = args) by reflexivity.
  assert (Hsave : saveCallArguments dm registers c m
                  = (b ← save_arguments_loop dm registers m args 0 0
                            (make_buffer (wrap_size_t dm
                               (getArgStackSize c + getArgRegisterSize c)));
                      Ok (set_savedCallArguments c
                            (m_savedCallArguments c ++ [b]))))
    by reflexivity.
  clearbody args.
  assert (Hbuf : length buf = N.to_nat (total_bytes args))
    by apply length_arguments_image.
  assert (Hseg : forall i d, args !! i = Some d ->
            arg_segment args i d buf
            = load_bytes m (getArgumentPtr i registers) (N.to_nat (size d))).
  { intros i d Hd. unfold arg_segment, buf.
    apply (arguments_image_segment registers m args i 0 d Hd). }
  split.
  { rewrite Hsave, Hcached.
    unfold wrap_size_t. rewrite N.mod_small by exact Hfit.
    rewrite save_arguments_loop_image.
    - reflexivity.
    - rewrite length_make_buffer. lia.
    - lia. }
  split; [lia|]. split; [exact Hseg|].
  destruct (restore_arguments_loop_spec registers buf args 0 0 m1)
    as (m2 & Hrun & _ & Hback); [lia..|].
  exists m2. split.
  { unfold restoreCallArguments.
    rewrite Hstack, last_snoc, removelast_last, Hc1args, Hrun. simpl.
    rewrite Hc1. reflexivity. }
  intros Hdisj i d Hd. rewrite <- (Hseg i d Hd).
  apply (Hback Hdisj i d Hd).
Qed.

End ArgumentBuffers.

Lemma save_restore_call_arguments_witness :
  let buf := arguments_image snapshot counting_memory
               (m_arguments mixed_convention_ready) 0 in
  saveCallArguments LP64 snapshot mixed_convention_ready counting_memory
  = Ok (set_savedCallArguments mixed_convention_ready [buf])
  /\ N.of_nat (length buf) = 17
  /\ exists m2,
       restoreCallArguments LP64 snapshot
         (set_savedCallArguments mixed_convention_ready [buf]) zero_memory
       = Ok (mixed_convention_ready, m2)
       /\ load_bytes m2 0x1010 8 = load_bytes counting_memory 0x1010 8.
Proof.
  destruct (save_restore_call_arguments LP64 snapshot mixed_convention
              mixed_convention_ready counting_memory zero_memory)
    as (Hsave & Hlen & _ & m2 & Hrestore & Hback); [reflexivity..|].
  split; [exact Hsave|]. split; [exact Hlen|].
  exists m2. split; [exact Hrestore|].
  apply (Hback ltac:(simpl; unfold disjoint_ranges; lia) 1%nat
           (mkDataObject Int NONE 8) eq_refl).
Defined.

End ConventionProps.

(** * Properties of the vtable hook *)

Module VTableHookProps.

Import VTableHook Samples.

Section Generic.

Context {base : NatHook}.

(** On a hook that is not active, [hook] is bridge creation followed by
    setting the flag to its outcome. *)
Lemma hook_inactive (ndebug : bool) (h : VHook) (m : Mem) :
  m_hooked h = false ->
  hook ndebug h m =
    let '(created, b, m') := createBridge (m_bridge h) m in
    Ok (created, mkVHook b created (m_fnAddress h), m').
Proof.
  intros Hh. unfold hook. rewrite Hh, andb_false_r.
  destruct (createBridge (m_bridge h) m) as [[[] b] m']; reflexivity.
Qed.

Lemma hook_active_release (h : VHook) (m : Mem) :
  m_hooked h = true -> hook true h m = Ok (false, h, m).
Proof. intros Hh. unfold hook. rewrite Hh. reflexivity. Qed.

Lemma hook_active_debug (h : VHook) (m : Mem) :
  m_hooked h = true -> hook false h m = Fault AssertionFailed.
Proof. intros Hh. unfold hook. rewrite Hh. reflexivity. Qed.

Lemma unhook_active (ndebug : bool) (h : VHook) (m : Mem) :
  m_hooked h = true ->
  unhook ndebug h m = Ok (true, mkVHook (m_bridge h) false (m_fnAddress h), m).
Proof. intros Hh. unfold unhook. rewrite Hh, andb_false_r. reflexivity. Qed.

(** C1 (as the code has it): a successful [hook] is bridge creation plus the
    flag.  When the hook is inactive and [createBridge] succeeds, [hook]
    returns [true]; the memory afterwards is the one [createBridge] left,
    the record holds the new bridge, [m_hooked] is set and [m_fnAddress] is
    kept as it was.  [hook] itself does not write the bridge address into
    the vtable slot. *)
Theorem hook_success_effect (ndebug : bool) (h : VHook) (m : Mem)
    (b : Bridge) (m' : Mem) :
  m_hooked h = false ->
  createBridge (m_bridge h) m = (true, b, m') ->
  hook ndebug h m = Ok (true, mkVHook b true (m_fnAddress h), m').
Proof.
  intros Hh Hb. rewrite hook_inactive by exact Hh. rewrite Hb. reflexivity.
Qed.

(** C2 (as the code has it): on an active hook, [unhook] clears the flag and
    returns [true]; memory, and with it the vtable slot, is left exactly as
    it was, and the bridge and [m_fnAddress] are kept. Restoring the slot is
    the holder's business. *)
Theorem unhook_clears_flag_only (ndebug : bool) (h : VHook) (m : Mem) :
  m_hooked h = true ->
  unhook ndebug h m
  = Ok (true, mkVHook (m_bridge h) false (m_fnAddress h), m).
Proof. apply unhook_active. Qed.


(** C4: on a hook that is already active, a second [hook] does not patch
    anything.  With the assertions compiled out it returns [false] and
    leaves the record and the memory as they are; with assertions it stops
    at [assert(!m_hooked)] before any write.  In no build does it return
    [true] or another state. *)
Theorem hook_twice_fails (ndebug : bool) (h : VHook) (m : Mem) :
  m_hooked h = true ->
  hook true h m = Ok (false, h, m)
  /\ hook false h m = Fault AssertionFailed
  /\ forall r h' m', hook ndebug h m = Ok (r, h', m') ->
       r = false /\ h' = h /\ m' = m.
Proof.
  intros Hh. split; [apply hook_active_release, Hh|].
  split; [apply hook_active_debug, Hh|].
  intros r h' m' Hr. destruct ndebug.
  - rewrite hook_active_release in Hr by exact Hh.
    injection Hr as <- <- <-. auto.
  - rewrite hook_active_debug in Hr by exact Hh. discriminate.
Qed.

(** C10: on an inactive hook, when [createBridge] fails [hook] returns
    [false], [m_hooked] stays [false] and [m_fnAddress] is kept, and a
    further [hook] runs bridge creation again; and whatever bridge creation
    does, [hook] returns, with [m_hooked] set exactly when it returns
    [true]. *)
Theorem hook_bridge_failure (ndebug : bool) (h : VHook) (m : Mem) :
  m_hooked h = false ->
  (forall b m', createBridge (m_bridge h) m = (false, b, m') ->
     hook ndebug h m = Ok (false, mkVHook b false (m_fnAddress h), m')
     /\ forall created b2 m2, createBridge b m' = (created, b2, m2) ->
          hook ndebug (mkVHook b false (m_fnAddress h)) m'
          = Ok (created, mkVHook b2 created (m_fnAddress h), m2))
  /\ exists r h' m',
       hook ndebug h m = Ok (r, h', m')
       /\ m_fnAddress h' = m_fnAddress h
       /\ (m_hooked h' = true <-> r = true).
Proof.
  intros Hh. split.
  - intros b m' Hb. split.
    + rewrite hook_inactive by exact Hh. rewrite Hb. reflexivity.
    + intros created b2 m2 Hb2. rewrite hook_inactive by reflexivity.
      simpl. rewrite Hb2. reflexivity.
  - rewrite hook_inactive by exact Hh.
    destruct (createBridge (m_bridge h) m) as [[created b] m'].
    eexists _, _, _. split; [reflexivity|]. simpl. tauto.
Qed.

End Generic.

(** *** Instances *)

Lemma hook_success_effect_witness :
  hook true (fresh_vhook 0x5000) vtable_memory
  = Ok (true, active_vhook 0x5000,
        store_bytes vtable_memory 0x7000 [x55; x48; xc3]).
Proof.
  apply (hook_success_effect (base := bridge_at 0x7000) true
           (fresh_vhook 0x5000) vtable_memory); reflexivity.
Defined.

(** C1 fails as stated: the slot at [0x5000] holds [0x401000]; [hook]
    succeeds with the bridge at [0x7000], and afterwards the slot still
    holds [0x401000] and not the bridge address, whether the hook was built
    on the slot address [0x5000] or on the function address [0x401000]. *)
Lemma hook_leaves_slot_counterexample :
  (exists h' m',
     hook true (fresh_vhook 0x5000) vtable_memory = Ok (true, h', m')
     /\ getBridge (m_bridge h') = 0x7000
     /\ read_pointer LP64 vtable_memory 0x5000 = 0x401000
     /\ read_pointer LP64 m' 0x5000 = 0x401000
     /\ read_pointer LP64 m' 0x5000 <> getBridge (m_bridge h')
     /\ m_fnAddress h' = 0x5000)
  /\ (exists h' m',
        hook true (fresh_vhook 0x401000) vtable_memory = Ok (true, h', m')
        /\ getBridge (m_bridge h') = 0x7000
        /\ read_pointer LP64 m' 0x5000 = 0x401000
        /\ read_pointer LP64 m' 0x5000 <> getBridge (m_bridge h')
        /\ m_fnAddress h' = 0x401000).
Proof.
  split; (eexists _, _; split; [reflexivity|]); vm_compute;
    repeat split; discriminate.
Qed.

Lemma unhook_clears_flag_only_witness :
  unhook true (active_vhook 0x5000) vtable_memory
  = Ok (true, mkVHook (m_bridge (active_vhook 0x5000)) false 0x5000,
        vtable_memory).
Proof.
  apply (unhook_clears_flag_only (base := bridge_at 0x7000) true
           (active_vhook 0x5000) vtable_memory); reflexivity.
Defined.

(** C2 fails as stated: after [hook], the holder puts the bridge address
    [0x7000] in the slot at [0x5000], which held [0x401000]; [unhook] then
    returns [true] and the slot still holds [0x7000]. *)
Lemma unhook_leaves_slot_counterexample :
  let swapped := write_pointer LP64
                   (store_bytes vtable_memory 0x7000 [x55; x48; xc3])
                   0x5000 0x7000 in
  exists h' m',
    unhook true (active_vhook 0x5000) swapped = Ok (true, h', m')
    /\ read_pointer LP64 vtable_memory 0x5000 = 0x401000
    /\ read_pointer LP64 swapped 0x5000 = 0x7000
    /\ read_pointer LP64 m' 0x5000 = 0x7000
    /\ read_pointer LP64 m' 0x5000 <> 0x401000.
Proof.
  eexists _, _. split; [reflexivity|]. vm_compute.
  repeat split; discriminate.
Qed.



Lemma hook_twice_fails_witness :
  hook true (active_vhook 0x5000) vtable_memory
  = Ok (false, active_vhook 0x5000, vtable_memory)
  /\ hook false (active_vhook 0x5000) vtable_memory = Fault AssertionFailed
  /\ forall r h' m',
       hook true (active_vhook 0x5000) vtable_memory = Ok (r, h', m') ->
       r = false /\ h' = active_vhook 0x5000 /\ m' = vtable_memory.
Proof.
  apply (hook_twice_fails (base := bridge_at 0x7000) true
           (active_vhook 0x5000) vtable_memory); reflexivity.
Defined.

Lemma hook_bridge_failure_witness :
  hook true (idle_vhook 0x5000) vtable_memory
  = Ok (false, idle_vhook 0x5000, vtable_memory).
Proof.
  apply (hook_bridge_failure (base := no_bridge) true
           (idle_vhook 0x5000) vtable_memory); reflexivity.
Defined.

End VTableHookProps.

(** * Further properties of the calling convention record *)

Module ConventionMore.

Import MemoryProps ConventionProps Callers Samples.

(** *** [Align] *)

Lemma AlignSpec_multiple (s a : N) : 0 < a -> AlignSpec s a mod a = 0.
Proof. intros Ha. unfold AlignSpec. apply N.Div0.mod_mul. Qed.

(** X1: when rounding up does not leave [size_t], [Align] returns the least
    multiple of the alignment that is not below the size. *)
Theorem Align_least_multiple (dm : DataModel) (s a : N) :
  0 < a -> s + a <= 2 ^ size_t_bits dm ->
  exists r,
    Align dm s a = Ok r
    /\ r mod a = 0
    /\ s <= r /\ r < s + a
    /\ forall k, s <= k * a -> r <= k * a.
Proof.
  intros Ha Hfit. exists (AlignSpec s a).
  split; [apply Align_spec; assumption|].
  split; [apply AlignSpec_multiple, Ha|].
  pose proof (AlignSpec_bounds s a Ha) as [Hlo Hhi].
  split; [exact Hlo|]. split; [exact Hhi|].
  intros k Hk. unfold AlignSpec in *.
  generalize dependent (ceil_div s a). intros q Hlo Hhi.
  destruct (N.le_gt_cases q k) as [Hle|Hgt]; [nia|].
  assert (k + 1 <= q) by lia. nia.
Qed.

(** X2: [Align] is idempotent: an aligned size is returned as it is. *)
Theorem Align_idempotent (dm : DataModel) (s a r : N) :
  s + a <= 2 ^ size_t_bits dm ->
  Align dm s a = Ok r -> Align dm r a = Ok r.
Proof.
  intros Hfit Hr.
  destruct (N.eq_dec a 0) as [->|Hnz]; [discriminate|].
  rewrite Align_spec in Hr by lia. injection Hr as <-.
  unfold Align. destruct (N.eqb_spec a 0) as [|_]; [contradiction|].
  rewrite AlignSpec_multiple by lia. reflexivity.
Qed.

(** X3: in general [Align] returns the rounded up size reduced modulo the
    width of [size_t]: rounding up past the largest [size_t] wraps. *)
Theorem Align_wraps (dm : DataModel) (s a : N) :
  0 < a -> s < 2 ^ size_t_bits dm ->
  Align dm s a = Ok (wrap_size_t dm (AlignSpec s a)).
Proof.
  intros Ha Hs. unfold Align.
  destruct (N.eqb_spec a 0) as [->|_]; [lia|].
  destruct (AlignSpec_cases s a Ha) as [[Hz ->]|[Hnz ->]].
  - rewrite Hz. simpl. unfold wrap_size_t.
    rewrite N.mod_small by exact Hs. reflexivity.
  - destruct (N.eqb_spec (s mod a) 0) as [Hz|_]; [lia|]. reflexivity.
Qed.

Lemma Align_least_multiple_witness :
  exists r,
    Align LP64 12 8 = Ok r
    /\ r mod 8 = 0 /\ 12 <= r /\ r < 12 + 8
    /\ forall k, 12 <= k * 8 -> r <= k * 8.
Proof.
  apply (Align_least_multiple LP64 12 8); [reflexivity|].
  vm_compute. discriminate.
Defined.

Lemma Align_idempotent_witness : Align LP64 16 8 = Ok 16.
Proof.
  apply (Align_idempotent LP64 12 8 16); [|reflexivity].
  vm_compute. discriminate.
Defined.

Lemma Align_wraps_witness : Align ILP32 4294967295 2 = Ok 0.
Proof.
  apply (Align_wraps ILP32 4294967295 2); reflexivity.
Defined.

(** *** [init] *)

Lemma fill_size_idempotent (dm : DataModel) (a : N) (d d' : DataObject) :
  fill_size dm a d = Ok d' -> fill_size dm a d' = Ok d'.
Proof.
  unfold fill_size at 1.
  destruct (N.eqb_spec (size d) 0) as [Hz|Hnz].
  - destruct (GetDataTypeSize dm (type d) a) as [g|] eqn:Hg; simpl;
      [|discriminate].
    intros [= <-]. unfold fill_size. simpl.
    destruct (N.eqb_spec (wrap_u16 g) 0) as [Hw|Hw]; [|reflexivity].
    rewrite Hg. reflexivity.
  - intros [= <-]. unfold fill_size.
    destruct (N.eqb_spec (size d) 0); [contradiction|reflexivity].
Qed.

Lemma init_arguments_fixed (dm : DataModel) (a : N) (args : list DataObject) :
  Forall (fun d => fill_size dm a d = Ok d) args ->
  forall s0 r0,
    s0 < 2 ^ size_t_bits dm -> r0 < 2 ^ size_t_bits dm ->
    init_arguments dm a args s0 r0
    = Ok (args, wrap_size_t dm (s0 + stack_bytes args),
          wrap_size_t dm (r0 + register_bytes args)).
Proof.
  assert (Hpos : 0 < 2 ^ size_t_bits dm) by (destruct dm; reflexivity).
  induction 1 as [|d rest Hd _ IH]; intros s0 r0 Hs0 Hr0.
  - simpl. unfold wrap_size_t. rewrite !N.add_0_r, !N.mod_small by assumption.
    reflexivity.
  - simpl. rewrite Hd. simpl. unfold wrap_size_t in *.
    destruct (decide (reg d = NONE)).
    + rewrite IH by (assumption || (apply N.mod_lt; lia)). simpl.
      rewrite N.Div0.add_mod_idemp_l, !N.add_assoc, N.add_0_r. reflexivity.
    + rewrite IH by (assumption || (apply N.mod_lt; lia)). simpl.
      rewrite N.Div0.add_mod_idemp_l, !N.add_assoc, N.add_0_r. reflexivity.
Qed.

(** X4: [init] is idempotent: running it on its own result changes
    nothing. *)
Theorem init_idempotent (dm : DataModel) (c c' : ICallingConvention) :
  init dm c = Ok c' -> init dm c' = Ok c'.
Proof.
  intros Hinit.
  apply init_unfold in Hinit as (args & s & r & ret & Hargs & Hret & ->).
  apply init_arguments_sums in Hargs as (-> & -> & Hall);
    [|destruct dm; reflexivity..].
  unfold init. simpl.
  rewrite init_arguments_fixed; [|
    | destruct dm; reflexivity | destruct dm; reflexivity].
  - simpl. rewrite (fill_size_idempotent _ _ _ _ Hret). reflexivity.
  - clear Hret. induction Hall as [|d d' l l' Hd _ IH]; constructor.
    + apply (fill_size_idempotent _ _ _ _ Hd).
    + exact IH.
Qed.

(** X5: whatever the alignment, [init] keeps the alignment, both stacks of
    saved buffers, the number of arguments, and of every descriptor the
    type, the register and a size given at construction. *)
Theorem init_preserves (dm : DataModel) (c c' : ICallingConvention) :
  init dm c = Ok c' ->
  m_alignment c' = m_alignment c
  /\ m_savedReturnBuffers c' = m_savedReturnBuffers c
  /\ m_savedCallArguments c' = m_savedCallArguments c
  /\ length (m_arguments c') = length (m_arguments c)
  /\ Forall2 (fun d d' => type d' = type d /\ reg d' = reg d
                          /\ (size d <> 0 -> d' = d))
       (m_return c :: m_arguments c) (m_return c' :: m_arguments c').
Proof.
  intros Hinit.
  apply init_unfold in Hinit as (args & s & r & ret & Hargs & Hret & ->).
  apply init_arguments_sums in Hargs as (_ & _ & Hall);
    [|destruct dm; reflexivity..].
  simpl. repeat split; try reflexivity.
  - symmetry. apply (Forall2_length _ _ _ Hall).
  - constructor; [apply (fill_size_keeps _ _ _ _ Hret)|].
    eapply Forall2_impl; [exact Hall|].
    intros d d' Hd. apply (fill_size_keeps _ _ _ _ Hd).
Qed.

Lemma init_preserves_witness :
  exists c',
    init LP64 mixed_convention = Ok c'
    /\ m_alignment c' = 8
    /\ length (m_arguments c') = 4%nat.
Proof.
  destruct (init_ok LP64 mixed_convention eq_refl) as [c' Hinit].
  exists c'. split; [exact Hinit|].
  destruct (init_preserves LP64 mixed_convention c' Hinit)
    as (Ha & _ & _ & Hlen & _).
  split; assumption.
Defined.

Lemma init_idempotent_witness :
  init LP64 mixed_convention_ready = Ok mixed_convention_ready.
Proof.
  apply (init_idempotent LP64 mixed_convention). reflexivity.
Defined.

(** With alignment 0 a descriptor either needs no division or faults. *)
Lemma fill_size_zero_alignment (dm : DataModel) (d : DataObject) :
  (needs_alignment d = true -> fill_size dm 0 d = Fault DivisionByZero)
  /\ (needs_alignment d = false -> is_Ok (fill_size dm 0 d)).
Proof.
  unfold needs_alignment, fill_size, is_Ok.
  destruct (size d =? 0); simpl; [|split; [discriminate|eauto]].
  destruct (type d); simpl; split; intros; try discriminate; eauto.
Qed.

Lemma init_arguments_zero_alignment (dm : DataModel)
    (args : list DataObject) :
  forall s0 r0,
    (Exists (fun d => needs_alignment d = true) args ->
     init_arguments dm 0 args s0 r0 = Fault DivisionByZero)
    /\ (~ Exists (fun d => needs_alignment d = true) args ->
        is_Ok (init_arguments dm 0 args s0 r0)).
Proof.
  induction args as [|d rest IH]; intros s0 r0.
  - split; [intros H; inversion H|]. intros _. simpl. unfold is_Ok. eauto.
  - destruct (fill_size_zero_alignment dm d) as [Hfault Hok]. simpl.
    destruct (needs_alignment d) eqn:Hneeds.
    + rewrite Hfault by reflexivity. simpl. split; [reflexivity|].
      intros Hno. exfalso. apply Hno. left. exact Hneeds.
    + destruct (Hok eq_refl) as [d' ->]. simpl.
      match goal with
      | |- context [init_arguments dm 0 rest ?x ?y] =>
          destruct (IH x y) as [IHfault IHok]
      end.
      split.
      * intros Hex. inversion Hex as [? ? Hd|? ? Hrest]; subst;
          [congruence|].
        rewrite (IHfault Hrest). reflexivity.
      * intros Hno.
        destruct IHok as [[[rest' s] r] ->].
        { intros Hrest. apply Hno. right. exact Hrest. }
        simpl. unfold is_Ok. eauto.
Qed.

(** X6: [init] stops in a division by zero exactly when the alignment is 0
    and some descriptor, argument or return, has no size given and a type
    other than [Void] and [Object]; in every other case it returns. *)
Theorem init_division_by_zero (dm : DataModel) (c : ICallingConvention) :
  (init dm c = Fault DivisionByZero
   <-> m_alignment c = 0
       /\ Exists (fun d => needs_alignment d = true)
            (m_arguments c ++ [m_return c]))
  /\ (is_Ok (init dm c) \/ init dm c = Fault DivisionByZero).
Proof.
  destruct (N.eq_dec (m_alignment c) 0) as [Hz|Hnz].
  - unfold init. rewrite Hz.
    destruct (init_arguments_zero_alignment dm (m_arguments c) 0 0)
      as [Hfault Hok].
    destruct (fill_size_zero_alignment dm (m_return c)) as [Hrfault Hrok].
    destruct (decide (Exists (fun d => needs_alignment d = true)
                        (m_arguments c))) as [Hex|Hno].
    + rewrite (Hfault Hex). simpl. split; [|right; reflexivity].
      split; [|reflexivity]. intros _. split; [reflexivity|].
      apply Exists_app. left. exact Hex.
    + destruct (Hok Hno) as [[[args s] r] ->]. simpl.
      destruct (needs_alignment (m_return c)) eqn:Hret.
      * rewrite (Hrfault eq_refl). simpl. split; [|right; reflexivity].
        split; [|reflexivity]. intros _. split; [reflexivity|].
        apply Exists_app. right. constructor. exact Hret.
      * destruct (Hrok eq_refl) as [ret ->]. simpl.
        split; [|left; unfold is_Ok; eauto].
        split; [discriminate|]. intros [_ Hex].
        apply Exists_app in Hex as [Hex|Hex]; [contradiction|].
        inversion Hex as [? ? Hd|? ? Hnil]; subst; [congruence|inversion Hnil].
  - destruct (init_ok dm c ltac:(lia)) as [c' Hc']. rewrite Hc'.
    split; [|left; unfold is_Ok; eauto].
    split; [discriminate|]. intros [Hz _]. contradiction.
Qed.

Lemma Align_below_alignment (dm : DataModel) (s a : N) :
  0 < s -> s < a -> a < 2 ^ size_t_bits dm -> Align dm s a = Ok a.
Proof.
  intros Hs Hlt Ha. unfold Align.
  destruct (N.eqb_spec a 0) as [->|_]; [lia|].
  rewrite N.mod_small by exact Hlt.
  destruct (N.eqb_spec s 0) as [->|_]; [lia|].
  unfold wrap_size_t. f_equal.
  replace (s + (a - s)) with a by lia. apply N.mod_small, Ha.
Qed.

Lemma GetDataTypeSize_large_alignment (dm : DataModel) (ty : DataType) (a : N) :
  64 < a -> a < 2 ^ size_t_bits dm ->
  ty <> Void -> ty <> Object ->
  GetDataTypeSize dm ty a = Ok a.
Proof.
  intros Hbig Hfit Hv Ho.
  pose proof (raw_size_le_64 dm ty) as Hraw.
  pose proof (proj2 (raw_size_pos dm ty) (conj Hv Ho)) as Hpos.
  destruct ty; try contradiction; cbn [GetDataTypeSize raw_size] in *;
    rewrite ?wrap_size_t_small by reflexivity;
    apply Align_below_alignment;
    unfold sizeof_bool, sizeof_char, sizeof_short, sizeof_int,
      sizeof_long_long, sizeof_float, sizeof_double in *;
    (assumption || lia).
Qed.

(** X7: with an alignment above 64, every size that [init] infers through
    [Align] is the alignment itself narrowed to 16 bits: from 65536 on the
    [uint16_t] field no longer holds the aligned size. *)
Theorem init_large_alignment (dm : DataModel) (c c' : ICallingConvention) :
  init dm c = Ok c' ->
  64 < m_alignment c -> m_alignment c < 2 ^ size_t_bits dm ->
  Forall2 (fun d d' => needs_alignment d = true ->
                       size d' = m_alignment c mod 2 ^ 16)
    (m_return c :: m_arguments c) (m_return c' :: m_arguments c').
Proof.
  intros Hinit Hbig Hfit.
  assert (Hfill : forall d d', fill_size dm (m_alignment c) d = Ok d' ->
            needs_alignment d = true -> size d' = m_alignment c mod 2 ^ 16).
  { intros d d' Hd Hneeds. unfold needs_alignment in Hneeds.
    apply andb_prop in Hneeds as [Hz Hty].
    apply negb_true_iff, orb_false_iff in Hty as [Hv Ho].
    apply bool_decide_eq_false in Hv, Ho.
    unfold fill_size in Hd. rewrite Hz in Hd.
    rewrite GetDataTypeSize_large_alignment in Hd by assumption.
    simpl in Hd. injection Hd as <-. reflexivity. }
  apply init_unfold in Hinit as (args & s & r & ret & Hargs & Hret & ->).
  apply init_arguments_sums in Hargs as (_ & _ & Hall);
    [|destruct dm; reflexivity..].
  simpl. constructor; [apply Hfill, Hret|].
  eapply Forall2_impl; [exact Hall|]. exact Hfill.
Qed.

Lemma total_bytes_multiple (a : N) (args : list DataObject) :
  Forall (fun d => size d mod a = 0) args -> total_bytes args mod a = 0.
Proof.
  induction 1 as [|d rest Hd _ IH]; simpl; [apply N.Div0.mod_0_l|].
  rewrite N.Div0.add_mod, Hd, IH. apply N.Div0.mod_0_l.
Qed.

(** X8: when no argument is given a size and the alignment lies between 1
    and 65535, [init] leaves every argument at an offset that is a multiple
    of the alignment, and the sizes add up to a multiple of it. *)
Theorem init_offsets_aligned (dm : DataModel) (c c' : ICallingConvention) :
  init dm c = Ok c' ->
  0 < m_alignment c -> m_alignment c < 2 ^ 16 ->
  Forall (fun d => size d = 0) (m_arguments c) ->
  (forall i, arg_offset (m_arguments c') i mod m_alignment c = 0)
  /\ total_bytes (m_arguments c') mod m_alignment c = 0.
Proof.
  intros Hinit Ha Hsmall Hzero.
  apply init_unfold in Hinit as (args & s & r & ret & Hargs & _ & ->).
  apply init_arguments_sums in Hargs as (_ & _ & Hall);
    [|destruct dm; reflexivity..].
  simpl.
  assert (Hmult : Forall (fun d => size d mod m_alignment c = 0) args).
  { clear -Hall Hzero Ha Hsmall.
    induction Hall as [|d d' l l' Hd _ IH]; [constructor|].
    inversion Hzero as [|? ? Hd0 Hrest]; subst.
    constructor; [|apply IH, Hrest].
    destruct (fill_size_filled dm (m_alignment c) d Ha Hsmall)
      as (d2 & Hd2 & _ & _ & _ & Hsize).
    assert (d2 = d') by congruence. subst d2.
    destruct (Hsize Hd0) as [-> _]. apply AlignSpec_multiple, Ha. }
  split; [|apply total_bytes_multiple, Hmult].
  intros i. unfold arg_offset. apply total_bytes_multiple.
  apply Forall_take, Hmult.
Qed.

Lemma init_division_by_zero_witness :
  is_Ok (init LP64 unaligned_convention)
  /\ init LP64 (mkConvention [mkDataObject Int NONE 0]
                  (mkDataObject Void NONE 0) 0 0 0 [] [])
     = Fault DivisionByZero.
Proof.
  split.
  - destruct (init_division_by_zero LP64 unaligned_convention)
      as [_ [Hok|Hfault]]; [exact Hok|discriminate Hfault].
  - apply (init_division_by_zero LP64). split; [reflexivity|].
    left. reflexivity.
Defined.

Lemma init_large_alignment_witness :
  exists c',
    init LP64 wide_convention = Ok c'
    /\ Forall2 (fun d d' => needs_alignment d = true -> size d' = 0)
         (m_return wide_convention :: m_arguments wide_convention)
         (m_return c' :: m_arguments c').
Proof.
  destruct (init_ok LP64 wide_convention eq_refl) as [c' Hinit].
  exists c'. split; [exact Hinit|].
  apply (init_large_alignment LP64 wide_convention c' Hinit); reflexivity.
Defined.

Lemma init_offsets_aligned_witness :
  exists c',
    init LP64 inferred_convention = Ok c'
    /\ (forall i, arg_offset (m_arguments c') i mod 8 = 0)
    /\ total_bytes (m_arguments c') mod 8 = 0.
Proof.
  destruct (init_ok LP64 inferred_convention eq_refl) as [c' Hinit].
  exists c'. split; [exact Hinit|].
  apply (init_offsets_aligned LP64 inferred_convention c' Hinit);
    [reflexivity|reflexivity|].
  repeat constructor.
Defined.

(** *** Saving and restoring *)

Lemma init_cached_total (dm : DataModel) (c0 c : ICallingConvention) :
  init dm c0 = Ok c ->
  total_bytes (m_arguments c) < 2 ^ size_t_bits dm ->
  getArgStackSize c + getArgRegisterSize c = total_bytes (m_arguments c).
Proof.
  intros Hinit Hfit.
  apply init_unfold in Hinit as (args & s & r & ret & Hargs & _ & ->).
  apply init_arguments_sums in Hargs as (-> & -> & _);
    [|destruct dm; reflexivity..].
  simpl in *. pose proof (stack_register_total args) as Htot.
  unfold getArgStackSize, getArgRegisterSize, wrap_size_t. simpl.
  rewrite !N.mod_small by lia. exact Htot.
Qed.

Section MoreBuffers.

Context {abi : ConventionABI}.
Variable dm : DataModel.

(** The save loop in a buffer that is long enough: what lies before
    [off] and after the arguments is kept. *)
Lemma save_arguments_loop_general (registers : Registers) (m : Mem)
    (args : list DataObject) :
  forall (i : nat) (off : N) (buf : list byte),
    off + total_bytes args <= N.of_nat (length buf) ->
    N.of_nat (length buf) < 2 ^ size_t_bits dm ->
    save_arguments_loop dm registers m args i off buf
    = Ok (take (N.to_nat off) buf ++ arguments_image registers m args i
          ++ drop (N.to_nat (off + total_bytes args)) buf).
Proof.
  induction args as [|d rest IH]; intros i off buf Hlen Hfit.
  - simpl. rewrite N.add_0_r, take_drop. reflexivity.
  - simpl in *.
    set (data := load_bytes m (getArgumentPtr i registers) (N.to_nat (size d))).
    assert (Hdata : length data = N.to_nat (size d)) by apply length_load_bytes.
    unfold buffer_write. rewrite decide_True by lia. simpl.
    unfold wrap_size_t. rewrite N.mod_small by lia.
    assert (Hpre : length (take (N.to_nat off) buf ++ data)
                   = N.to_nat (off + size d)).
    { rewrite length_app, length_take. lia. }
    assert (Hbuf : take (N.to_nat off) buf ++ data
                     ++ drop (N.to_nat off + length data) buf
                   = (take (N.to_nat off) buf ++ data)
                       ++ drop (N.to_nat (off + size d)) buf).
    { rewrite <- app_assoc. do 3 f_equal. lia. }
    rewrite Hbuf. rewrite IH.
    + f_equal.
      rewrite (take_app_length' (take (N.to_nat off) buf ++ data))
        by (symmetry; exact Hpre).
      replace (N.to_nat (off + size d + total_bytes rest))
        with (N.to_nat (off + size d) + N.to_nat (total_bytes rest))%nat
        by lia.
      rewrite drop_app_add' by (symmetry; exact Hpre).
      rewrite drop_drop, <- !app_assoc. do 4 f_equal. lia.
    + rewrite length_app, Hpre, length_drop. lia.
    + rewrite length_app, Hpre, length_drop. lia.
Qed.

(** The save loop in a buffer that is too short leaves it. *)
Lemma save_arguments_loop_overflow (registers : Registers) (m : Mem)
    (args : list DataObject) :
  forall (i : nat) (off : N) (buf : list byte),
    off <= N.of_nat (length buf) ->
    N.of_nat (length buf) < off + total_bytes args ->
    N.of_nat (length buf) < 2 ^ size_t_bits dm ->
    save_arguments_loop dm registers m args i off buf = Fault OutOfBounds.
Proof.
  induction args as [|d rest IH]; intros i off buf Hoff Hlen Hfit.
  - simpl in Hlen. lia.
  - simpl in *. unfold buffer_write. rewrite length_load_bytes.
    destruct (decide (N.to_nat off + N.to_nat (size d) <= length buf)%nat)
      as [Hin|Hout]; [|reflexivity].
    simpl. unfold wrap_size_t. rewrite N.mod_small by lia.
    apply IH; rewrite !length_app, length_take, length_drop, length_load_bytes;
      lia.
Qed.

(** X9: [saveCallArguments] succeeds whenever the cached byte counts cover
    the sizes of the arguments; the buffer it pushes holds the arguments one
    after the other, followed by zero bytes up to the cached total. *)
Theorem saveCallArguments_padding (registers : Registers)
    (c : ICallingConvention) (m : Mem) :
  let cached := wrap_size_t dm (getArgStackSize c + getArgRegisterSize c) in
  total_bytes (m_arguments c) <= cached ->
  saveCallArguments dm registers c m
  = Ok (set_savedCallArguments c
          (m_savedCallArguments c
           ++ [arguments_image registers m (m_arguments c) 0
               ++ replicate (N.to_nat (cached - total_bytes (m_arguments c)))
                    x00])).
Proof.
  intros cached Hle. unfold saveCallArguments. cbv zeta.
  subst cached.
  set (cached := wrap_size_t dm (getArgStackSize c + getArgRegisterSize c))
    in *.
  assert (Hcached : cached < 2 ^ size_t_bits dm).
  { apply N.mod_lt. destruct dm; discriminate. }
  clearbody cached.
  rewrite save_arguments_loop_general
    by (rewrite length_make_buffer; lia).
  change (N.to_nat 0) with 0%nat. rewrite take_0, N.add_0_l.
  unfold make_buffer. rewrite drop_replicate.
  replace (N.to_nat cached - N.to_nat (total_bytes (m_arguments c)))%nat
    with (N.to_nat (cached - total_bytes (m_arguments c))) by lia.
  reflexivity.
Qed.

(** X10: [saveCallArguments] writes past its buffer as soon as the cached
    byte counts are smaller than the sizes of the arguments together. *)
Theorem saveCallArguments_overflow (registers : Registers)
    (c : ICallingConvention) (m : Mem) :
  wrap_size_t dm (getArgStackSize c + getArgRegisterSize c)
  < total_bytes (m_arguments c) ->
  saveCallArguments dm registers c m = Fault OutOfBounds.
Proof.
  intros Hlt. unfold saveCallArguments.
  assert (Hcached : wrap_size_t dm (getArgStackSize c + getArgRegisterSize c)
                    < 2 ^ size_t_bits dm).
  { apply N.mod_lt. destruct dm; discriminate. }
  rewrite save_arguments_loop_overflow;
    [reflexivity|rewrite length_make_buffer; lia..].
Qed.

Lemma buffer_read_length (buf bytes : list byte) (off n : N) :
  buffer_read buf off n = Ok bytes -> length bytes = N.to_nat n.
Proof.
  unfold buffer_read.
  destruct (decide _) as [Hin|]; [|discriminate].
  intros [= <-]. rewrite length_take, length_drop. lia.
Qed.

Lemma restore_arguments_loop_frame (registers : Registers)
    (saved : list byte) (args : list DataObject) :
  forall (i : nat) (off : N) (m m2 : Mem),
    restore_arguments_loop dm registers saved args i off m = Ok m2 ->
    forall q n, range_clear_of registers q (N.of_nat n) args i ->
      load_bytes m2 q n = load_bytes m q n.
Proof.
  induction args as [|d rest IH]; intros i off m m2 Hrun q n Hclear.
  - simpl in Hrun. injection Hrun as <-. reflexivity.
  - simpl in Hrun, Hclear. destruct Hclear as [Hq Hrest].
    destruct (buffer_read saved off (size d)) as [bytes|] eqn:Hread;
      simpl in Hrun; [|discriminate].
    rewrite (IH _ _ _ _ Hrun q n Hrest).
    apply load_store_disjoint.
    rewrite (buffer_read_length _ _ _ _ Hread), N2Nat.id. exact Hq.
Qed.

(** X11: [restoreCallArguments] writes nowhere but to the locations of the
    arguments: a range that meets none of them reads the same before and
    after. *)
Theorem restoreCallArguments_frame (registers : Registers)
    (c c' : ICallingConvention) (m m' : Mem) (q : N) (n : nat) :
  restoreCallArguments dm registers c m = Ok (c', m') ->
  range_clear_of registers q (N.of_nat n) (m_arguments c) 0 ->
  load_bytes m' q n = load_bytes m q n.
Proof.
  unfold restoreCallArguments. intros Hrun Hclear.
  destruct (last (m_savedCallArguments c)) as [saved|]; [|discriminate].
  destruct (restore_arguments_loop dm registers saved (m_arguments c) 0 0 m)
    as [m2|] eqn:Hloop; simpl in Hrun; [|discriminate].
  injection Hrun as _ <-.
  apply (restore_arguments_loop_frame _ _ _ _ _ _ _ Hloop q n Hclear).
Qed.

(** X12: [restoreReturnValue] writes nowhere but to the [m_return.size]
    bytes of the return slot, and touches no field of the record but the
    stack of return buffers. *)
Theorem restoreReturnValue_frame (registers : Registers)
    (c c' : ICallingConvention) (m m' : Mem) (q : N) (n : nat) :
  restoreReturnValue registers c m = Ok (c', m') ->
  disjoint_ranges (getReturnPtr registers) (size (m_return c)) q (N.of_nat n) ->
  load_bytes m' q n = load_bytes m q n
  /\ c' = set_savedReturnBuffers c (removelast (m_savedReturnBuffers c)).
Proof.
  unfold restoreReturnValue. intros Hrun Hdisj.
  destruct (last (m_savedReturnBuffers c)) as [saved|]; [|discriminate].
  destruct (buffer_read saved 0 (size (m_return c))) as [bytes|] eqn:Hread;
    simpl in Hrun; [|discriminate].
  injection Hrun as <- <-. split; [|reflexivity].
  unfold onReturnPtrChanged. apply load_store_disjoint.
  rewrite (buffer_read_length _ _ _ _ Hread), N2Nat.id. exact Hdisj.
Qed.

Lemma restore_arguments_loop_overflow (registers : Registers)
    (saved : list byte) (args : list DataObject) :
  forall (i : nat) (off : N) (m : Mem),
    off <= N.of_nat (length saved) ->
    N.of_nat (length saved) < off + total_bytes args ->
    N.of_nat (length saved) < 2 ^ size_t_bits dm ->
    restore_arguments_loop dm registers saved args i off m
    = Fault OutOfBounds.
Proof.
  induction args as [|d rest IH]; intros i off m Hoff Hlen Hfit.
  - simpl in Hlen. lia.
  - simpl in *. unfold buffer_read.
    destruct (decide (N.to_nat off + N.to_nat (size d) <= length saved)%nat)
      as [Hin|Hout]; [|reflexivity].
    simpl. unfold wrap_size_t. rewrite N.mod_small by lia.
    apply IH; lia.
Qed.

(** X13: [restoreCallArguments] needs a saved buffer that covers the sizes
    of the arguments: on an empty stack it is outside its precondition,
    with a buffer that is too short it reads past the end, and otherwise it
    returns with the buffer popped. *)
Theorem restoreCallArguments_outcome (registers : Registers)
    (c : ICallingConvention) (m : Mem) :
  (m_savedCallArguments c = [] ->
   restoreCallArguments dm registers c m = Fault EmptyStack)
  /\ forall bufs saved,
       m_savedCallArguments c = bufs ++ [saved] ->
       N.of_nat (length saved) < 2 ^ size_t_bits dm ->
       (N.of_nat (length saved) < total_bytes (m_arguments c) ->
        restoreCallArguments dm registers c m = Fault OutOfBounds)
       /\ (total_bytes (m_arguments c) <= N.of_nat (length saved) ->
           exists m',
             restoreCallArguments dm registers c m
             = Ok (set_savedCallArguments c bufs, m')).
Proof.
  split.
  - intros Hstack. unfold restoreCallArguments. rewrite Hstack. reflexivity.
  - intros bufs saved Hstack Hfit. unfold restoreCallArguments.
    rewrite Hstack, last_snoc, removelast_last. split.
    + intros Hshort.
      rewrite restore_arguments_loop_overflow by lia. reflexivity.
    + intros Hlong.
      destruct (restore_arguments_loop_spec dm registers saved
                  (m_arguments c) 0 0 m) as (m2 & -> & _); [lia..|].
      simpl. eauto.
Qed.

(** In a buffer that holds, for every argument, the bytes found at its
    location, the arguments lie one after the other. *)
Lemma arguments_image_of_segments (registers : Registers) (m : Mem)
    (saved : list byte) (args : list DataObject) :
  forall (j : nat) (off : N),
    (forall k d, args !! k = Some d ->
       load_bytes m (getArgumentPtr (j + k) registers) (N.to_nat (size d))
       = take (N.to_nat (size d))
           (drop (N.to_nat (off + total_bytes (take k args))) saved)) ->
    arguments_image registers m args j
    = take (N.to_nat (total_bytes args)) (drop (N.to_nat off) saved).
Proof.
  induction args as [|d rest IH]; intros j off Hseg.
  - simpl. rewrite take_0. reflexivity.
  - simpl.
    pose proof (Hseg 0%nat d eq_refl) as Hhead. simpl in Hhead.
    rewrite Nat.add_0_r, N.add_0_r in Hhead. rewrite Hhead.
    rewrite (IH (S j) (off + size d)).
    + replace (N.to_nat (off + size d))
        with (N.to_nat off + N.to_nat (size d))%nat by lia.
      rewrite <- drop_drop, take_take_drop. f_equal. lia.
    + intros k d' Hd'. specialize (Hseg (S k) d' Hd'). simpl in Hseg.
      replace (j + S k)%nat with (S j + k)%nat in Hseg by lia.
      rewrite Hseg. do 3 f_equal. lia.
Qed.

(** X14: restoring and saving again is the identity on the record. After
    [init], with argument locations that do not overlap and a saved buffer
    of the size of the arguments, [restoreCallArguments] followed by
    [saveCallArguments] on the memory it leaves pushes the very buffer that
    was popped. *)
Theorem restore_then_save_call_arguments (registers : Registers)
    (c0 c : ICallingConvention) (m : Mem)
    (bufs : list (list byte)) (saved : list byte) :
  init dm c0 = Ok c ->
  total_bytes (m_arguments c) < 2 ^ size_t_bits dm ->
  m_savedCallArguments c = bufs ++ [saved] ->
  length saved = N.to_nat (total_bytes (m_arguments c)) ->
  arguments_disjoint registers (m_arguments c) 0 ->
  exists c' m',
    restoreCallArguments dm registers c m = Ok (c', m')
    /\ m_savedCallArguments c' = bufs
    /\ saveCallArguments dm registers c' m' = Ok c.
Proof.
  intros Hinit Hfit Hstack Hlen Hdisj.
  pose proof (init_cached_total dm c0 c Hinit Hfit) as Hcached.
  destruct (restore_arguments_loop_spec dm registers saved
              (m_arguments c) 0 0 m) as (m2 & Hrun & _ & Hback); [lia..|].
  exists (set_savedCallArguments c bufs), m2.
  split; [|split; [reflexivity|]].
  - unfold restoreCallArguments.
    rewrite Hstack, last_snoc, removelast_last, Hrun. reflexivity.
  - assert (Himage : arguments_image registers m2 (m_arguments c) 0 = saved).
    { rewrite (arguments_image_of_segments registers m2 saved
                 (m_arguments c) 0 0 (Hback Hdisj)).
      change (N.to_nat 0) with 0%nat. rewrite drop_0.
      apply take_ge. lia. }
    unfold saveCallArguments. cbv zeta.
    change (getArgStackSize (set_savedCallArguments c bufs))
      with (getArgStackSize c).
    change (getArgRegisterSize (set_savedCallArguments c bufs))
      with (getArgRegisterSize c).
    change (m_arguments (set_savedCallArguments c bufs))
      with (m_arguments c).
    rewrite Hcached. unfold wrap_size_t. rewrite N.mod_small by exact Hfit.
    rewrite save_arguments_loop_image
      by (rewrite ?length_make_buffer; lia).
    change (N.to_nat 0) with 0%nat. rewrite take_0. simpl.
    rewrite Himage, <- Hstack. f_equal.
    exact (set_savedCallArguments_same c).
Qed.

End MoreBuffers.

Lemma saveCallArguments_padding_witness :
  saveCallArguments LP64 snapshot roomy_convention counting_memory
  = Ok (set_savedCallArguments roomy_convention
          [arguments_image snapshot counting_memory
             (m_arguments roomy_convention) 0
           ++ replicate 7 x00]).
Proof.
  apply (saveCallArguments_padding LP64 snapshot roomy_convention
           counting_memory).
  vm_compute. discriminate.
Defined.

Lemma saveCallArguments_overflow_witness :
  saveCallArguments LP64 snapshot stale_convention counting_memory
  = Fault OutOfBounds.
Proof.
  apply (saveCallArguments_overflow LP64 snapshot stale_convention
           counting_memory).
  reflexivity.
Defined.

Lemma restoreCallArguments_frame_witness :
  exists c' m',
    restoreCallArguments LP64 snapshot suspended_convention zero_memory
    = Ok (c', m')
    /\ load_bytes m' 0x2000 4 = load_bytes zero_memory 0x2000 4.
Proof.
  destruct (restoreCallArguments LP64 snapshot suspended_convention
              zero_memory) as [[c' m']|f] eqn:Hrun;
    [|vm_compute in Hrun; discriminate Hrun].
  exists c', m'. split; [reflexivity|].
  apply (restoreCallArguments_frame LP64 snapshot suspended_convention c'
           zero_memory m' 0x2000 4 Hrun).
  simpl. unfold disjoint_ranges, snapshot. lia.
Defined.

Lemma restoreReturnValue_frame_witness :
  exists c' m',
    restoreReturnValue snapshot suspended_convention zero_memory
    = Ok (c', m')
    /\ load_bytes m' 0x1000 16 = load_bytes zero_memory 0x1000 16
    /\ m_savedReturnBuffers c' = [].
Proof.
  destruct (restoreReturnValue snapshot suspended_convention zero_memory)
    as [[c' m']|f] eqn:Hrun; [|vm_compute in Hrun; discriminate Hrun].
  exists c', m'. split; [reflexivity|].
  destruct (restoreReturnValue_frame snapshot suspended_convention c'
              zero_memory m' 0x1000 16 Hrun) as [Hload ->].
  - simpl. unfold disjoint_ranges, snapshot. lia.
  - split; [exact Hload|reflexivity].
Defined.

Lemma restoreCallArguments_outcome_witness :
  restoreCallArguments LP64 snapshot mixed_convention_ready zero_memory
  = Fault EmptyStack
  /\ restoreCallArguments LP64 snapshot truncated_convention zero_memory
     = Fault OutOfBounds
  /\ exists m',
       restoreCallArguments LP64 snapshot suspended_convention zero_memory
       = Ok (set_savedCallArguments suspended_convention [], m').
Proof.
  split; [|split].
  - apply (restoreCallArguments_outcome LP64 snapshot mixed_convention_ready
             zero_memory). reflexivity.
  - destruct (proj2 (restoreCallArguments_outcome LP64 snapshot
                       truncated_convention zero_memory)
                [] (replicate 16 x00) eq_refl eq_refl) as [Hshort _].
    apply Hshort. reflexivity.
  - destruct (proj2 (restoreCallArguments_outcome LP64 snapshot
                       suspended_convention zero_memory)
                [] (arguments_image snapshot counting_memory
                      (m_arguments mixed_convention_ready) 0)
                eq_refl eq_refl) as [_ Hlong].
    apply Hlong. vm_compute. discriminate.
Defined.

Lemma restore_then_save_call_arguments_witness :
  exists c' m',
    restoreCallArguments LP64 snapshot suspended_convention zero_memory
    = Ok (c', m')
    /\ m_savedCallArguments c' = []
    /\ saveCallArguments LP64 snapshot c' m' = Ok suspended_convention.
Proof.
  apply (restore_then_save_call_arguments LP64 snapshot
           (set_savedCallArguments
              (set_savedReturnBuffers mixed_convention
                 (m_savedReturnBuffers suspended_convention))
              (m_savedCallArguments suspended_convention))
           suspended_convention zero_memory []
           (arguments_image snapshot counting_memory
              (m_arguments mixed_convention_ready) 0));
    try reflexivity.
  simpl. unfold disjoint_ranges, snapshot. lia.
Defined.

(** *** Runs of the dispatcher *)

Section Runs.

Context {abi : ConventionABI}.

(** X15: a run of saves, restores and memory writes that returns leaves
    every field of the record but the stack of return buffers as it was, and
    the depth of that stack has grown by the number of saves less the number
    of restores. *)
Theorem run_return_ops_accounting (ops : list return_op) :
  forall (c c' : ICallingConvention) (m m' : Mem),
    run_return_ops ops c m = Ok (c', m') ->
    c' = set_savedReturnBuffers c (m_savedReturnBuffers c')
    /\ (length (m_savedReturnBuffers c') + restores_in ops
        = length (m_savedReturnBuffers c) + saves_in ops)%nat.
Proof.
  induction ops as [|[registers|registers|p bs] rest IH]; intros c c' m m' Hrun.
  - simpl in Hrun. injection Hrun as <- <-. simpl.
    split; [symmetry; apply set_savedReturnBuffers_same|lia].
  - simpl in Hrun. rewrite saveReturnValue_pushes in Hrun. simpl in Hrun.
    apply IH in Hrun as [Hc Hdepth]. simpl in Hc, Hdepth.
    rewrite length_app in Hdepth. simpl in *.
    split; [exact Hc|lia].
  - simpl in Hrun.
    destruct (restoreReturnValue registers c m) as [[c1 m1]|] eqn:Hres;
      simpl in Hrun; [|discriminate].
    unfold restoreReturnValue in Hres.
    destruct (last (m_savedReturnBuffers c)) as [saved|] eqn:Hlast;
      [|discriminate].
    destruct (buffer_read saved 0 (size (m_return c))) as [bytes|];
      simpl in Hres; [|discriminate].
    injection Hres as <- <-.
    apply last_Some in Hlast as [bufs Hstack].
    apply IH in Hrun as [Hc Hdepth]. simpl in Hc, Hdepth.
    rewrite Hstack, removelast_last in Hdepth.
    rewrite Hstack, length_app. simpl.
    split; [exact Hc|lia].
  - simpl in Hrun. apply IH in Hrun as [Hc Hdepth]. simpl.
    split; [exact Hc|lia].
Qed.

(** X16: the two stacks do not interfere: saving the return value and
    saving the arguments give the same record in either order. *)
Theorem save_return_and_arguments_commute (dm : DataModel)
    (registers registers' : Registers) (c : ICallingConvention) (m : Mem) :
  (c1 ← saveReturnValue registers c m;
   saveCallArguments dm registers' c1 m)
  = (c1 ← saveCallArguments dm registers' c m;
     saveReturnValue registers c1 m).
Proof.
  rewrite saveReturnValue_pushes. simpl.
  unfold saveCallArguments. simpl.
  destruct (save_arguments_loop dm registers' m (m_arguments c) 0 0 _)
    as [buf|f]; simpl; [|reflexivity].
  rewrite saveReturnValue_pushes. reflexivity.
Qed.

End Runs.

Lemma run_return_ops_accounting_witness :
  exists c' m',
    run_return_ops nested_calls mixed_convention_ready counting_memory
    = Ok (c', m')
    /\ length (m_savedReturnBuffers c') = 0%nat
    /\ m_arguments c' = m_arguments mixed_convention_ready.
Proof.
  destruct (run_return_ops nested_calls mixed_convention_ready
              counting_memory) as [[c' m']|f] eqn:Hrun;
    [|vm_compute in Hrun; discriminate Hrun].
  exists c', m'. split; [reflexivity|].
  destruct (run_return_ops_accounting nested_calls mixed_convention_ready c'
              counting_memory m' Hrun) as [Hc Hdepth].
  simpl in Hdepth. split; [lia|]. rewrite Hc. reflexivity.
Defined.

End ConventionMore.

(** * Further properties of the vtable hook *)

Module VTableHookMore.

Import VTableHook VTableHookProps Callers Samples.

Section Generic.

Context {base : NatHook}.

(** X17: on a hook that is not active, [unhook] removes nothing. With the
    assertions compiled out it returns [false] and leaves the record and
    the memory as they are; with assertions it stops at
    [assert(m_hooked)].  In no build does it return [true]. *)
Theorem unhook_inactive (ndebug : bool) (h : VHook) (m : Mem) :
  m_hooked h = false ->
  unhook true h m = Ok (false, h, m)
  /\ unhook false h m = Fault AssertionFailed
  /\ forall r h' m', unhook ndebug h m = Ok (r, h', m') ->
       r = false /\ h' = h /\ m' = m.
Proof.
  intros Hh. unfold unhook. rewrite Hh. simpl.
  split; [reflexivity|]. split; [reflexivity|].
  intros r h' m'. destruct ndebug; simpl; [|discriminate].
  intros [= <- <- <-]. auto.
Qed.

(** X18: the destructor never trips an assertion, whatever the build and
    the state of the hook: it returns with the hook inactive, and with the
    bridge, the address and the memory untouched. *)
Theorem destroy_safe (ndebug : bool) (h : VHook) (m : Mem) :
  destroy ndebug h m
  = Ok (mkVHook (m_bridge h) false (m_fnAddress h), m).
Proof.
  unfold destroy. destruct (m_hooked h) eqn:Hh.
  - rewrite unhook_active by exact Hh. reflexivity.
  - destruct h as [b hooked a]. simpl in Hh. subst hooked. reflexivity.
Qed.

(** X19: with the assertions compiled out no sequence of [hook] and
    [unhook] calls can fail; the address of the hook stays what it was at
    construction, and a byte that bridge creation never writes keeps its
    value through the whole sequence. *)
Theorem run_hook_calls_release (calls : list hook_call) :
  forall (h : VHook) (m : Mem),
    exists h' m',
      run_hook_calls true calls h m = Ok (h', m')
      /\ getAddress h' = getAddress h
      /\ forall a, (forall b mm, (createBridge b mm).2 a = mm a) ->
                   m' a = m a.
Proof.
  induction calls as [|[|] rest IH]; intros h m.
  - exists h, m. simpl. auto.
  - simpl. destruct (m_hooked h) eqn:Hh.
    + rewrite hook_active_release by exact Hh. simpl. apply IH.
    + rewrite hook_inactive by exact Hh.
      destruct (createBridge (m_bridge h) m) as [[created b] m1] eqn:Hb.
      simpl.
      destruct (IH (mkVHook b created (m_fnAddress h)) m1)
        as (h' & m' & Hrun & Haddr & Hframe).
      exists h', m'. split; [exact Hrun|]. split; [exact Haddr|].
      intros a Ha. rewrite (Hframe a Ha).
      specialize (Ha (m_bridge h) m). rewrite Hb in Ha. exact Ha.
  - simpl. destruct (m_hooked h) eqn:Hh.
    + rewrite unhook_active by exact Hh. simpl.
      destruct (IH (mkVHook (m_bridge h) false (m_fnAddress h)) m)
        as (h' & m' & Hrun & Haddr & Hframe).
      exists h', m'. auto.
    + unfold unhook. rewrite Hh. simpl. apply IH.
Qed.

End Generic.

Lemma unhook_inactive_witness :
  unhook true (fresh_vhook 0x5000) vtable_memory
  = Ok (false, fresh_vhook 0x5000, vtable_memory)
  /\ unhook false (fresh_vhook 0x5000) vtable_memory = Fault AssertionFailed.
Proof.
  destruct (unhook_inactive (base := bridge_at 0x7000) true
              (fresh_vhook 0x5000) vtable_memory eq_refl) as (H1 & H2 & _).
  split; assumption.
Defined.

Lemma run_hook_calls_release_witness :
  exists h' m',
    run_hook_calls true
      [CallHook; CallHook; CallUnhook; CallUnhook; CallHook]
      (fresh_vhook 0x5000) vtable_memory = Ok (h', m')
    /\ getAddress h' = 0x5000
    /\ m' 0x5000 = vtable_memory 0x5000.
Proof.
  destruct (run_hook_calls_release (base := bridge_at 0x7000)
              [CallHook; CallHook; CallUnhook; CallUnhook; CallHook]
              (fresh_vhook 0x5000) vtable_memory)
    as (h' & m' & Hrun & Haddr & Hframe).
  exists h', m'. split; [exact Hrun|]. split; [exact Haddr|].
  apply Hframe. intros b mm. reflexivity.
Defined.

End VTableHookMore.
